(** * github_backup: the backup orchestrator, modelled and verified

    A shallow embedding of [src/github_backup/backup_manager.py] and
    [src/github_backup/dropbox_client.py].  Python code that talks to the
    outside (the GitHub REST API, [git], the local file system, the Dropbox
    SDK, the clock) runs in a small state-and-exception monad over an abstract
    world; every outside call is recorded, with its outcome, in the list of
    events the computation emits.

    After the orchestrator come the parts around it: the paging of
    [src/github_backup/github_client.py] behind the interface the
    orchestrator uses, the constructors of the three classes, and the
    commands [backup_all] and [backup_repos] of [src/github_backup/cli.py]
    with their exit status. *)

From Stdlib Require Import Ascii String ZArith List Bool Lia DecimalString.
Import ListNotations.
Local Open Scope string_scope.
Local Open Scope list_scope.
Local Open Scope Z_scope.
Set Warnings "-register-all".

(** ** Data model *)

(** [github_client.Repository] (a dataclass). *)
Record Repository := mkRepository {
  name : string;
  full_name : string;
  clone_url : string;
  default_branch : string;
  private : bool;
  size : Z;
  updated_at : string
}.

(** Python exceptions, by the classes the code distinguishes, with the text
    [str(e)] gives.  All of them derive from [Exception]. *)
Inductive exn_class :=
| TimeoutExpired               (* subprocess.TimeoutExpired *)
| ApiError (path_conflict : bool)
    (* dropbox.exceptions.ApiError; the flag is
       [e.error.is_path() and e.error.get_path().is_conflict()] *)
| FileNotFoundError
| HTTPError (status : Z)       (* requests: response.raise_for_status() *)
| ValueError
| OtherException.

Record exn := mkExn { exn_class_of : exn_class; str : string }.

(** [subprocess.CompletedProcess], the two attributes the code reads. *)
Record CompletedProcess := mkCompleted { returncode : Z; stderr : string }.

(** [dropbox.files.WriteMode]. *)
Inductive WriteMode := WriteMode_add | WriteMode_overwrite.

(** ** The mirror directory and the archive *)

(** A [pathlib.Path], as its components. *)
Definition Path := list string.

(** [Path.__truediv__]: [p / c]. *)
Definition path_div (p : Path) (c : string) : Path := p ++ [c].

(** [str(path)]. *)
Definition path_str (p : Path) : string := String.concat "/" p.

(** What a directory entry is: [File] is whatever [Path.is_file()] accepts
    (a regular file, or a link to one), [Dir] a directory the walk descends
    into, with its entries in [os.scandir] order, [Other] anything else (a
    dangling link, a link to a directory, a socket, ...). *)
Inductive node :=
| File (data : string)
| Dir (entries : list (string * node))
| Other.

(** [Path.is_file()]. *)
Definition is_file (n : node) : bool :=
  match n with File _ => true | _ => false end.

(** [repo_path.rglob('*')]: every path below [base], directory by directory
    in pre-order, each directory listing all of its entries.  Nothing is
    yielded when [base] is not a directory. *)
Fixpoint rglob (base : Path) (n : node) {struct n} : list (Path * node) :=
  match n with
  | Dir entries =>
      map (fun e => (path_div base (fst e), snd e)) entries ++
      flat_map (fun e => rglob (path_div base (fst e)) (snd e)) entries
  | _ => []
  end.

(** [Path.relative_to(other)]: [None] stands for the [ValueError] Python
    raises when [other] is not a prefix. *)
Fixpoint relative_to (p other : Path) {struct other} : option Path :=
  match other, p with
  | [], _ => Some p
  | o :: other', c :: p' => if String.eqb o c then relative_to p' other' else None
  | _ :: _, [] => None
  end.

(** The entries [zipf.write(file_path, arcname)] adds, in order: lines
    147-150 of [backup_repository]. *)
Fixpoint zip_entries (repo_path : Path) (found : list (Path * node))
  : exn + list (Path * string) :=
  match found with
  | [] => inr []
  | (file_path, n) :: rest =>
      match n with
      | File data =>
          match relative_to file_path repo_path with
          | None => inl (mkExn ValueError "path is not in the subpath")
          | Some arcname =>
              match zip_entries repo_path rest with
              | inl e => inl e
              | inr zs => inr ((arcname, data) :: zs)
              end
          end
      | _ => zip_entries repo_path rest
      end
  end.

Definition archive_entries (repo_path : Path) (mirror : node)
  : exn + list (Path * string) :=
  zip_entries repo_path (rglob repo_path mirror).

(** Path resolution in a tree, independent of the walk: [reaches n p m] when
    following the components of [p] from [n] ends at [m]. *)
Inductive reaches : node -> Path -> node -> Prop :=
| reaches_here n : reaches n [] n
| reaches_down entries c k p m :
    In (c, k) entries -> reaches k p m -> reaches (Dir entries) (c :: p) m.

(** A regular file strictly below the root, at relative path [p]. *)
Definition regular_file_at (mirror : node) (p : Path) (data : string) : Prop :=
  p <> [] /\ reaches mirror p (File data).

(** ** Calls to the outside, and their record *)

Inductive log_level := INFO | ERROR.

(** One event per call that leaves the process, with what came back:
    [inl e] when the call raised [e]. *)
Inductive event :=
| EListRepos (username : option string) (res : exn + list Repository)
| EGetRepo (owner repo_name : string) (res : exn + Repository)
| EMkdtemp (temp_dir : string)
| ECleanup (temp_dir : string)
| EGitClone (url dest : string) (res : exn + CompletedProcess)
| EZipWrite (zip_path : string) (members : list (Path * string)) (res : exn + unit)
| ECreateFolderV2 (path : string) (res : exn + unit)
| EOpen (local_path : string) (res : exn + Z)
| EFilesUpload (path : string) (mode : WriteMode) (res : exn + unit)
| ESessionStart (len : Z) (res : exn + string)
| ESessionAppend (offset len : Z) (res : exn + unit)
| ESessionFinish (offset len : Z) (path : string) (mode : WriteMode) (res : exn + unit)
| ELog (level : log_level) (msg : string).

(** What the orchestrator requires of its collaborators, over a world [W]
    they may read and change.  [github_client.GitHubClient] is taken at its
    interface (the paging of [get_user_repositories] stays behind it); the
    Dropbox SDK, [subprocess.run], [zipfile] and the file system are the
    calls the two source files make. *)
Class Collaborators (W : Type) := {
  (* GitHubClient.get_user_repositories(username) *)
  gh_get_user_repositories : option string -> W -> (exn + list Repository) * W;
  (* GitHubClient.get_repository(owner, repo_name) *)
  gh_get_repository : string -> string -> W -> (exn + Repository) * W;
  (* tempfile.TemporaryDirectory(): entering yields a fresh directory,
     leaving removes it; both are taken to succeed *)
  fs_mkdtemp : W -> string * W;
  fs_cleanup : string -> W -> W;
  (* subprocess.run(['git','clone','--mirror',url,dest], ..., timeout=300) *)
  run_git_clone_mirror : string -> string -> W -> (exn + CompletedProcess) * W;
  (* the tree found at a path *)
  fs_tree : Path -> W -> node;
  (* zipfile.ZipFile(zip_path,'w',ZIP_DEFLATED) with the given members
     written and the file closed; any I/O error on the way is raised *)
  zip_write : string -> list (Path * string) -> W -> (exn + unit) * W;
  (* open(local_path,'rb') then os.path.getsize(local_path) *)
  fs_open_size : string -> W -> (exn + Z) * W;
  (* datetime.now().strftime("%Y%m%d_%H%M%S") and .isoformat() *)
  now_strftime : W -> string;
  now_isoformat : W -> string;
  (* the Dropbox SDK *)
  files_create_folder_v2 : string -> W -> (exn + unit) * W;
  files_upload : Z -> string -> WriteMode -> W -> (exn + unit) * W;
  files_upload_session_start : Z -> W -> (exn + string) * W;
  files_upload_session_append_v2 : string -> Z -> Z -> W -> (exn + unit) * W;
  files_upload_session_finish :
    string -> Z -> Z -> string -> WriteMode -> W -> (exn + unit) * W
}.

(** ** Results *)

(** One element of [results['backup_details']]; a key the dictionary does
    not have is [None]. *)
Record BackupDetail := mkDetail {
  bd_repo_name : string;
  bd_full_name : option string;
  bd_success : bool;
  bd_timestamp : string;
  bd_private : option bool;
  bd_size_kb : option Z;
  bd_error : option string
}.

(** The dictionary [backup_all_repositories] returns. *)
Module Full.
Record results := mk {
  total_repos : Z;
  successful_backups : Z;
  failed_backups : Z;
  skipped_repos : Z;
  backup_details : list BackupDetail;
  error : option string
}.
Definition initial : results := mk 0 0 0 0 [] None.
(* results['total_repos'] = n *)
Definition set_total (n : Z) (r : results) : results :=
  mk n (successful_backups r) (failed_backups r) (skipped_repos r)
     (backup_details r) (error r).
(* results['successful_backups'] += 1 *)
Definition incr_successful (r : results) : results :=
  mk (total_repos r) (successful_backups r + 1) (failed_backups r) (skipped_repos r)
     (backup_details r) (error r).
(* results['failed_backups'] += 1 *)
Definition incr_failed (r : results) : results :=
  mk (total_repos r) (successful_backups r) (failed_backups r + 1) (skipped_repos r)
     (backup_details r) (error r).
(* results['skipped_repos'] += 1 *)
Definition incr_skipped (r : results) : results :=
  mk (total_repos r) (successful_backups r) (failed_backups r) (skipped_repos r + 1)
     (backup_details r) (error r).
(* results['backup_details'].append(d) *)
Definition append_detail (d : BackupDetail) (r : results) : results :=
  mk (total_repos r) (successful_backups r) (failed_backups r) (skipped_repos r)
     (backup_details r ++ [d]) (error r).
(* results['error'] = msg *)
Definition set_error (msg : string) (r : results) : results :=
  mk (total_repos r) (successful_backups r) (failed_backups r) (skipped_repos r)
     (backup_details r) (Some msg).
End Full.

(** The dictionary [backup_specific_repositories] returns. *)
Module Targeted.
Record results := mk {
  requested_repos : Z;
  successful_backups : Z;
  failed_backups : Z;
  not_found_repos : Z;
  backup_details : list BackupDetail
}.
Definition initial (repo_names : list string) : results :=
  mk (Z.of_nat (length repo_names)) 0 0 0 [].
(* results['successful_backups'] += 1 *)
Definition incr_successful (r : results) : results :=
  mk (requested_repos r) (successful_backups r + 1) (failed_backups r)
     (not_found_repos r) (backup_details r).
(* results['failed_backups'] += 1 *)
Definition incr_failed (r : results) : results :=
  mk (requested_repos r) (successful_backups r) (failed_backups r + 1)
     (not_found_repos r) (backup_details r).
(* results['not_found_repos'] += 1 *)
Definition incr_not_found (r : results) : results :=
  mk (requested_repos r) (successful_backups r) (failed_backups r)
     (not_found_repos r + 1) (backup_details r).
(* results['backup_details'].append(d) *)
Definition append_detail (d : BackupDetail) (r : results) : results :=
  mk (requested_repos r) (successful_backups r) (failed_backups r)
     (not_found_repos r) (backup_details r ++ [d]).
End Targeted.

(** ** The monad *)

(** A computation reads and changes the state (the world and the local
    variables [L] of the running function), returns or raises, and emits
    events.  State changes made before an exception is raised stay. *)
Record St (W L : Type) := mkSt { world : W; locals : L }.
Arguments mkSt {W L}.
Arguments world {W L}.
Arguments locals {W L}.

Definition M (W L A : Type) : Type := St W L -> (exn + A) * St W L * list event.

Section Monad.
Context {W L : Type}.

Definition ret {A} (a : A) : M W L A := fun s => (inr a, s, []).

Definition bind {A B} (m : M W L A) (k : A -> M W L B) : M W L B :=
  fun s =>
    match m s with
    | (inl e, s1, t1) => (inl e, s1, t1)
    | (inr a, s1, t1) =>
        match k a s1 with
        | (r, s2, t2) => (r, s2, t1 ++ t2)
        end
    end.

Definition raise {A} (e : exn) : M W L A := fun s => (inl e, s, []).

(** [try: m  except Exception as e: handler e]. *)
Definition try_except {A} (m : M W L A) (handler : exn -> M W L A) : M W L A :=
  fun s =>
    match m s with
    | (inl e, s1, t1) =>
        match handler e s1 with
        | (r, s2, t2) => (r, s2, t1 ++ t2)
        end
    | done => done
    end.

(** [try: m  finally: fin], [fin] not raising. *)
Definition finally {A} (m : M W L A) (fin : M W L unit) : M W L A :=
  fun s =>
    match m s with
    | (r, s1, t1) =>
        match fin s1 with
        | (_, s2, t2) => (r, s2, t1 ++ t2)
        end
    end.

(** A call to a collaborator, recorded with its outcome. *)
Definition call {A} (op : W -> (exn + A) * W) (ev : exn + A -> event) : M W L A :=
  fun s =>
    match op (world s) with
    | (r, w) => (r, mkSt w (locals s), [ev r])
    end.

(** Reading the world. *)
Definition ask {A} (f : W -> A) : M W L A := fun s => (inr (f (world s)), s, []).

(** [self.logger.info(msg)], [self.logger.error(msg)]. *)
Definition log (level : log_level) (msg : string) : M W L unit :=
  fun s => (inr tt, s, [ELog level msg]).

(** The local variables. *)
Definition get_locals : M W L L := fun s => (inr (locals s), s, []).
Definition modify_locals (f : L -> L) : M W L unit :=
  fun s => (inr tt, mkSt (world s) (f (locals s)), []).

(** [for x in xs: body x]. *)
Fixpoint for_each {X} (xs : list X) (body : X -> M W L unit) : M W L unit :=
  match xs with
  | [] => ret tt
  | x :: rest => bind (body x) (fun _ => for_each rest body)
  end.

End Monad.

(** A function called with fresh local variables [init], the caller's own
    untouched. *)
Definition in_frame {W L L' A} (init : L') (body : M W L' A) : M W L A :=
  fun s =>
    match body (mkSt (world s) init) with
    | (r, s1, t) => (r, mkSt (world s1) (locals s), t)
    end.

Declare Scope monad_scope.
Delimit Scope monad_scope with monad.
Notation "x <- m ;; k" := (bind m (fun x => k))
  (at level 61, m at next level, right associativity) : monad_scope.
Notation "m ;; k" := (bind m (fun _ => k))
  (at level 61, right associativity) : monad_scope.

(** An f-string: the pieces, concatenated. *)
Definition fmt (pieces : list string) : string := String.concat "" pieces.

(** [str(n)] for an integer. *)
Definition str_of_int (n : Z) : string := NilZero.string_of_int (Z.to_int n).

(** Python truthiness of an [Optional[str]]: [None] and [''] are false. *)
Definition truthy (o : option string) : option string :=
  match o with
  | Some "" => None
  | other => other
  end.

(** [x in xs] for a list of strings. *)
Definition py_in (x : string) (xs : list string) : bool :=
  existsb (String.eqb x) xs.

Section Program.
Context {W : Type} `{Collaborators W}.
Local Open Scope monad_scope.

(** A collaborator call that does not raise. *)
Definition call_ok {L A} (op : W -> A * W) (ev : A -> event) : M W L A :=
  fun s =>
    match op (world s) with
    | (a, w) => (inr a, mkSt w (locals s), [ev a])
    end.

(** ** dropbox_client.DropboxClient *)

Definition CHUNK_SIZE : Z := 4 * 1024 * 1024.
Definition SIMPLE_UPLOAD_LIMIT : Z := 150 * 1024 * 1024.

Definition write_mode (overwrite : bool) : WriteMode :=
  if overwrite then WriteMode_overwrite else WriteMode_add.

(** The [while file_obj.tell() < file_size] loop of [_upload_large_file].
    [tell] is [file_obj.tell()], which [cursor.offset] equals whenever the
    loop test is evaluated.  Every turn that does not leave the loop moves
    [tell] forward by [CHUNK_SIZE], so the turns are bounded by [fuel] (see
    [upload_session_loop_fuel]). *)
Fixpoint upload_session_loop {L} (fuel : nat) (session_id dropbox_path : string)
    (file_size : Z) (overwrite : bool) (tell : Z) : M W L unit :=
  match fuel with
  | O => ret tt
  | S fuel' =>
      if tell <? file_size then
        let remaining := file_size - tell in
        let chunk_size := Z.min CHUNK_SIZE remaining in
        if remaining <=? CHUNK_SIZE then
          (* last chunk *)
          let mode := write_mode overwrite in
          call (files_upload_session_finish session_id tell chunk_size dropbox_path mode)
               (ESessionFinish tell chunk_size dropbox_path mode)
          (* break *)
        else
          call (files_upload_session_append_v2 session_id tell chunk_size)
               (ESessionAppend tell chunk_size) ;;
          upload_session_loop fuel' session_id dropbox_path file_size overwrite
                              (tell + chunk_size)
      else ret tt
  end.

(** [DropboxClient._upload_large_file]. *)
Definition _upload_large_file {L} (dropbox_path : string) (file_size : Z)
    (overwrite : bool) : M W L unit :=
  let first := Z.max 0 (Z.min CHUNK_SIZE file_size) in
  session_id <- call (files_upload_session_start first) (ESessionStart first) ;;
  upload_session_loop (S (Z.to_nat (file_size / CHUNK_SIZE)))
                      session_id dropbox_path file_size overwrite first.

(** The default of [upload_file]'s parameter [overwrite]. *)
Definition upload_file_overwrite_default : bool := true.

(** [DropboxClient.upload_file]. *)
Definition upload_file {L} (local_path dropbox_path : string) (overwrite : bool)
  : M W L bool :=
  try_except
    (file_size <- call (fs_open_size local_path) (EOpen local_path) ;;
     (if file_size <=? SIMPLE_UPLOAD_LIMIT then
        let mode := write_mode overwrite in
        call (files_upload file_size dropbox_path mode)
             (EFilesUpload dropbox_path mode)
      else
        _upload_large_file dropbox_path file_size overwrite) ;;
     log INFO (fmt ["Successfully uploaded "; local_path; " to "; dropbox_path]) ;;
     ret true)
    (fun e =>
       match exn_class_of e with
       | FileNotFoundError =>
           log ERROR (fmt ["Local file not found: "; local_path]) ;; ret false
       | ApiError _ =>
           log ERROR (fmt ["Dropbox API error: "; str e]) ;; ret false
       | _ =>
           log ERROR (fmt ["Unexpected error uploading file: "; str e]) ;; ret false
       end).

(** [DropboxClient.create_folder]: only [ApiError] is caught. *)
Definition create_folder {L} (path : string) : M W L bool :=
  try_except
    (call (files_create_folder_v2 path) (ECreateFolderV2 path) ;;
     log INFO (fmt ["Created folder: "; path]) ;;
     ret true)
    (fun e =>
       match exn_class_of e with
       | ApiError true =>
           (* folder already exists *)
           log INFO (fmt ["Folder already exists: "; path]) ;; ret true
       | ApiError false =>
           log ERROR (fmt ["Error creating folder "; path; ": "; str e]) ;; ret false
       | _ => raise e
       end).

(** ** github_client.GitHubClient, at its interface *)

Definition get_user_repositories {L} (username : option string)
  : M W L (list Repository) :=
  call (gh_get_user_repositories username) (EListRepos username).

Definition get_repository {L} (owner repo_name : string) : M W L Repository :=
  call (gh_get_repository owner repo_name) (EGetRepo owner repo_name).

(** ** backup_manager.BackupManager *)

(** [self.backup_folder]. *)
Variable backup_folder : string.

(** The archive step, lines 146-150: walk the mirror, write the members. *)
Definition write_archive {L} (zip_path repo_path : Path) : M W L unit :=
  mirror <- ask (fs_tree repo_path) ;;
  match archive_entries repo_path mirror with
  | inl e => raise e
  | inr members =>
      call (zip_write (path_str zip_path) members)
           (EZipWrite (path_str zip_path) members)
  end.

(** [BackupManager.backup_repository]. *)
Definition backup_repository {L} (repo : Repository) : M W L bool :=
  temp_dir <- call_ok fs_mkdtemp EMkdtemp ;;
  finally
    (try_except
       ((* Clone repository *)
        let repo_path := path_div [temp_dir] (name repo) in
        log INFO (fmt ["Cloning repository: "; clone_url repo]) ;;
        clone_result <-
          call (run_git_clone_mirror (clone_url repo) (path_str repo_path))
               (EGitClone (clone_url repo) (path_str repo_path)) ;;
        if negb (returncode clone_result =? 0) then
          log ERROR (fmt ["Failed to clone "; name repo; ": "; stderr clone_result]) ;;
          ret false
        else
          (* Create zip file *)
          timestamp <- ask now_strftime ;;
          let zip_filename := fmt [name repo; "_"; timestamp; ".zip"] in
          let zip_path := path_div [temp_dir] zip_filename in
          log INFO (fmt ["Creating zip file: "; zip_filename]) ;;
          write_archive zip_path repo_path ;;
          (* Upload to Dropbox *)
          let dropbox_path := fmt [backup_folder; "/"; name repo; "/"; zip_filename] in
          (* Ensure folder exists *)
          let folder_path := fmt [backup_folder; "/"; name repo] in
          _ <- create_folder folder_path ;;
          log INFO (fmt ["Uploading to Dropbox: "; dropbox_path]) ;;
          success <- upload_file (path_str zip_path) dropbox_path
                                 upload_file_overwrite_default ;;
          (if success then
             log INFO (fmt ["Successfully backed up "; name repo])
           else
             log ERROR (fmt ["Failed to upload "; name repo; " to Dropbox"])) ;;
          ret success)
       (fun e =>
          match exn_class_of e with
          | TimeoutExpired =>
              log ERROR (fmt ["Timeout while cloning "; name repo]) ;; ret false
          | _ =>
              log ERROR (fmt ["Error backing up "; name repo; ": "; str e]) ;;
              ret false
          end))
    (call_ok (fun w => (tt, fs_cleanup temp_dir w)) (fun _ => ECleanup temp_dir)).

(** The filtering loop of [backup_all_repositories], lines 73-85;
    [filtered_repos] is the list built so far. *)
Fixpoint filter_loop (exclude_repos : list string) (include_private : bool)
    (repos filtered_repos : list Repository)
  : M W Full.results (list Repository) :=
  match repos with
  | [] => ret filtered_repos
  | repo :: rest =>
      if py_in (name repo) exclude_repos then
        log INFO (fmt ["Skipping excluded repository: "; name repo]) ;;
        modify_locals Full.incr_skipped ;;
        (* continue *)
        filter_loop exclude_repos include_private rest filtered_repos
      else if negb include_private && private repo then
        log INFO (fmt ["Skipping private repository: "; name repo]) ;;
        modify_locals Full.incr_skipped ;;
        (* continue *)
        filter_loop exclude_repos include_private rest filtered_repos
      else
        filter_loop exclude_repos include_private rest (filtered_repos ++ [repo])
  end.

(** The body of the backup loop of [backup_all_repositories], lines 89-105. *)
Definition backup_and_record (repo : Repository) : M W Full.results unit :=
  log INFO (fmt ["Starting backup for repository: "; name repo]) ;;
  success <- backup_repository repo ;;
  timestamp <- ask now_isoformat ;;
  let backup_detail :=
    mkDetail (name repo) (Some (full_name repo)) success timestamp
             (Some (private repo)) (Some (size repo)) None in
  modify_locals (Full.append_detail backup_detail) ;;
  if success then modify_locals Full.incr_successful
  else modify_locals Full.incr_failed.

(** [BackupManager.backup_all_repositories]. *)
Definition backup_all_repositories {L} (username : option string)
    (exclude_repos : option (list string)) (include_private : bool)
  : M W L Full.results :=
  in_frame Full.initial
    ((* exclude_repos = exclude_repos or [] *)
     let exclude_repos := match exclude_repos with Some l => l | None => [] end in
     try_except
       (repos <- get_user_repositories username ;;
        modify_locals (Full.set_total (Z.of_nat (length repos))) ;;
        (* Filter repositories *)
        filtered_repos <- filter_loop exclude_repos include_private repos [] ;;
        (* Backup each repository *)
        for_each filtered_repos backup_and_record ;;
        results <- get_locals ;;
        log INFO (fmt ["Backup completed. Success: ";
                       str_of_int (Full.successful_backups results);
                       ", Failed: "; str_of_int (Full.failed_backups results);
                       ", Skipped: "; str_of_int (Full.skipped_repos results)]))
       (fun e =>
          log ERROR (fmt ["Error during backup process: "; str e]) ;;
          modify_locals (Full.set_error (str e))) ;;
     get_locals).

(** Lines 208-221 of [backup_specific_repositories]: what the [try] body
    does once [repo] is resolved. *)
Definition backup_resolved (repo : Repository) : M W Targeted.results unit :=
  success <- backup_repository repo ;;
  timestamp <- ask now_isoformat ;;
  let backup_detail :=
    mkDetail (name repo) (Some (full_name repo)) success timestamp None None None in
  modify_locals (Targeted.append_detail backup_detail) ;;
  if success then modify_locals Targeted.incr_successful
  else modify_locals Targeted.incr_failed.

(** The body of the loop of [backup_specific_repositories], lines 195-232. *)
Definition backup_requested (username : option string) (repo_name : string)
  : M W Targeted.results unit :=
  try_except
    (match truthy username with
     | Some owner =>
         repo <- get_repository owner repo_name ;;
         backup_resolved repo
     | None =>
         all_repos <- get_user_repositories None ;;
         (* next((r for r in all_repos if r.name == repo_name), None) *)
         match find (fun r => String.eqb (name r) repo_name) all_repos with
         | None =>
             log ERROR (fmt ["Repository not found: "; repo_name]) ;;
             modify_locals Targeted.incr_not_found
             (* continue *)
         | Some user_repo => backup_resolved user_repo
         end
     end)
    (fun e =>
       log ERROR (fmt ["Error processing repository "; repo_name; ": "; str e]) ;;
       modify_locals Targeted.incr_failed ;;
       timestamp <- ask now_isoformat ;;
       let backup_detail :=
         mkDetail repo_name None false timestamp None None (Some (str e)) in
       modify_locals (Targeted.append_detail backup_detail)).

(** [BackupManager.backup_specific_repositories]. *)
Definition backup_specific_repositories {L} (repo_names : list string)
    (username : option string) : M W L Targeted.results :=
  in_frame (Targeted.initial repo_names)
    (for_each repo_names (backup_requested username) ;;
     get_locals).

End Program.

(** ** Reading a run *)

Definition result_of {W L A} (m : M W L A) (s : St W L) : exn + A := fst (fst (m s)).
Definition state_after {W L A} (m : M W L A) (s : St W L) : St W L := snd (fst (m s)).
Definition events_of {W L A} (m : M W L A) (s : St W L) : list event := snd (m s).

(** The steps of [backup_repository], read off the events. *)
Definition clone_ok (e : event) : bool :=
  match e with
  | EGitClone _ _ (inr done) => returncode done =? 0
  | _ => false
  end.

(** The clone exits non-zero, or times out. *)
Definition clone_failed (res : exn + CompletedProcess) : bool :=
  match res with
  | inr done => negb (returncode done =? 0)
  | inl e => match exn_class_of e with TimeoutExpired => true | _ => false end
  end.

Definition archive_step (e : event) : bool :=
  match e with EZipWrite _ _ _ => true | _ => false end.

Definition archive_ok (e : event) : bool :=
  match e with EZipWrite _ _ (inr _) => true | _ => false end.

Definition folder_step (e : event) : bool :=
  match e with ECreateFolderV2 _ _ => true | _ => false end.

(** [create_folder] returned [True]: created, or already there. *)
Definition folder_ok (e : event) : bool :=
  match e with
  | ECreateFolderV2 _ (inr _) => true
  | ECreateFolderV2 _ (inl e) =>
      match exn_class_of e with ApiError true => true | _ => false end
  | _ => false
  end.

(** [create_folder] raised. *)
Definition folder_raised (e : event) : bool :=
  match e with
  | ECreateFolderV2 _ (inl e) =>
      match exn_class_of e with ApiError _ => false | _ => true end
  | _ => false
  end.

Definition upload_step (e : event) : bool :=
  match e with
  | EOpen _ _ | EFilesUpload _ _ _ | ESessionStart _ _
  | ESessionAppend _ _ _ | ESessionFinish _ _ _ _ _ => true
  | _ => false
  end.

(** The upload was committed: [upload_file] returned [True]. *)
Definition upload_ok (e : event) : bool :=
  match e with
  | EFilesUpload _ _ (inr _) | ESessionFinish _ _ _ _ (inr _) => true
  | _ => false
  end.

(** A call that commits a file does so in overwrite mode. *)
Definition commits_overwriting (e : event) : bool :=
  match e with
  | EFilesUpload _ WriteMode_add _ | ESessionFinish _ _ _ WriteMode_add _ => false
  | _ => true
  end.

(** What [upload_file] may emit: its calls and its log lines. *)
Definition upload_scope (e : event) : bool :=
  upload_step e || match e with ELog _ _ => true | _ => false end.

(** The clone calls among the events. *)
Definition clone_attempt (e : event) : bool :=
  match e with EGitClone _ _ _ => true | _ => false end.

Definition listing_call (e : event) : bool :=
  match e with EListRepos _ _ => true | _ => false end.

(** The URLs cloned, in order. *)
Definition clone_urls (t : list event) : list string :=
  flat_map (fun e => match e with EGitClone url _ _ => [url] | _ => [] end) t.

(** Whether a repository is left out of a full run. *)
Definition skipped (exclude_repos : list string) (include_private : bool)
    (repo : Repository) : bool :=
  py_in (name repo) exclude_repos || (negb include_private && private repo).

(** The line logged for a repository left out. *)
Definition skip_message (exclude_repos : list string) (repo : Repository) : event :=
  if py_in (name repo) exclude_repos
  then ELog INFO (fmt ["Skipping excluded repository: "; name repo])
  else ELog INFO (fmt ["Skipping private repository: "; name repo]).

(** The record made of a request that raised. *)
Definition failed_request (repo_name : string) (e : exn) (timestamp : string)
    (r : Targeted.results) : Targeted.results :=
  Targeted.append_detail
    (mkDetail repo_name None false timestamp None None (Some (str e)))
    (Targeted.incr_failed r).

Definition request_error_line (repo_name : string) (e : exn) : event :=
  ELog ERROR (fmt ["Error processing repository "; repo_name; ": "; str e]).

(** The directory answers a request for [owner]/[n] with a record named [n]. *)
Definition answers_by_name {W} `{Collaborators W} : Prop :=
  forall (owner n : string) (w : W) (r : Repository),
    fst (gh_get_repository owner n w) = inr r -> name r = n.

(** [l1] is [l2] with some elements left out. *)
Inductive subseq {A} : list A -> list A -> Prop :=
| subseq_nil : subseq [] []
| subseq_skip x l1 l2 : subseq l1 l2 -> subseq l1 (x :: l2)
| subseq_take x l1 l2 : subseq l1 l2 -> subseq (x :: l1) (x :: l2).

(** ** A concrete world, for running the model *)

Module Scenario.

Record world := mk {
  hosted : list Repository;            (* what the directory holds *)
  listing_error : option exn;          (* the listing call raises *)
  clone_outcome : exn + CompletedProcess;
  mirror : node;                       (* what a clone leaves on disk *)
  zip_error : option exn;
  zip_size : Z;
  folder_error : option exn;
  upload_error : option exn;
  folders : list string;               (* remote folders *)
  stored : list (string * Z)           (* remote files: path and size *)
}.

Definition with_folders (fs : list string) (w : world) : world :=
  mk (hosted w) (listing_error w) (clone_outcome w) (mirror w) (zip_error w)
     (zip_size w) (folder_error w) (upload_error w) fs (stored w).

Definition with_stored (st : list (string * Z)) (w : world) : world :=
  mk (hosted w) (listing_error w) (clone_outcome w) (mirror w) (zip_error w)
     (zip_size w) (folder_error w) (upload_error w) (folders w) st.

Definition failing {A} (err : option exn) (ok : A * world) (w : world)
  : (exn + A) * world :=
  match err with
  | Some e => (inl e, w)
  | None => (inr (fst ok), snd ok)
  end.

Definition not_found : exn := mkExn (HTTPError 404) "404 Client Error: Not Found".

Definition conflict : exn := mkExn (ApiError true) "path/conflict/folder".

(** Storing at [path]: in [add] mode an existing file is a conflict, in
    [overwrite] mode it is replaced. *)
Definition store (path : string) (len : Z) (mode : WriteMode) (w : world)
  : (exn + unit) * world :=
  match upload_error w with
  | Some e => (inl e, w)
  | None =>
      let others := filter (fun f => negb (String.eqb (fst f) path)) (stored w) in
      match mode with
      | WriteMode_overwrite => (inr tt, with_stored ((path, len) :: others) w)
      | WriteMode_add =>
          if existsb (fun f => String.eqb (fst f) path) (stored w)
          then (inl conflict, w)
          else (inr tt, with_stored ((path, len) :: others) w)
      end
  end.

#[global] Instance collaborators : Collaborators world := {
  gh_get_user_repositories _ w := failing (listing_error w) (hosted w, w) w;
  gh_get_repository _ repo_name w :=
    match find (fun r => String.eqb (name r) repo_name) (hosted w) with
    | Some r => (inr r, w)
    | None => (inl not_found, w)
    end;
  fs_mkdtemp w := ("/tmp/tmpk3v9", w);
  fs_cleanup _ w := w;
  run_git_clone_mirror _ _ w := (clone_outcome w, w);
  fs_tree _ w := mirror w;
  zip_write _ _ w := failing (zip_error w) (tt, w) w;
  fs_open_size _ w := (inr (zip_size w), w);
  now_strftime _ := "20240229_120000";
  now_isoformat _ := "2024-02-29T12:00:00";
  files_create_folder_v2 path w :=
    match folder_error w with
    | Some e => (inl e, w)
    | None =>
        if py_in path (folders w) then (inl conflict, w)
        else (inr tt, with_folders (path :: folders w) w)
    end;
  files_upload len path mode w := store path len mode w;
  files_upload_session_start _ w := failing (upload_error w) ("session-1", w) w;
  files_upload_session_append_v2 _ _ _ w := failing (upload_error w) (tt, w) w;
  files_upload_session_finish _ offset len path mode w := store path (offset + len) mode w
}.

Definition repo_a : Repository :=
  mkRepository "a" "octocat/a" "https://github.com/octocat/a.git" "main" false 100
               "2024-02-01T00:00:00Z".

Definition repo_b : Repository :=
  mkRepository "b" "octocat/b" "https://github.com/octocat/b.git" "main" true 50
               "2024-01-01T00:00:00Z".

Definition tree : node :=
  Dir [("HEAD", File "ref: refs/heads/main");
       ("hooks", Dir []);
       ("refs", Dir [("heads", Dir [("main", File "5f2c")])]);
       ("lock", Other)].

(** Everything works. *)
Definition fine : world :=
  mk [repo_a; repo_b] None (inr (mkCompleted 0 "")) tree None 2048 None None [] [].

Definition with_clone (c : exn + CompletedProcess) (w : world) : world :=
  mk (hosted w) (listing_error w) c (mirror w) (zip_error w)
     (zip_size w) (folder_error w) (upload_error w) (folders w) (stored w).


Definition with_listing_error (e : exn) (w : world) : world :=
  mk (hosted w) (Some e) (clone_outcome w) (mirror w) (zip_error w)
     (zip_size w) (folder_error w) (upload_error w) (folders w) (stored w).

Definition with_zip_size (n : Z) (w : world) : world :=
  mk (hosted w) (listing_error w) (clone_outcome w) (mirror w) (zip_error w)
     n (folder_error w) (upload_error w) (folders w) (stored w).

Definition start (w : world) : St world unit := mkSt w tt.

End Scenario.

(** ** Further readings of the events *)

(** The bytes a call of an upload session hands over, as (offset, length),
    when the call is accepted. *)
Definition session_chunk (e : event) : option (Z * Z) :=
  match e with
  | ESessionStart len (inr _) => Some (0, len)
  | ESessionAppend offset len (inr _) => Some (offset, len)
  | ESessionFinish offset len _ _ (inr _) => Some (offset, len)
  | _ => None
  end.

Fixpoint session_chunks (t : list event) : list (Z * Z) :=
  match t with
  | [] => []
  | e :: rest =>
      match session_chunk e with
      | Some c => c :: session_chunks rest
      | None => session_chunks rest
      end
  end.

(** Where chunks that follow one another from [from] end, each of them
    non-empty and at most 4 MiB long; [None] when there is a gap, an overlap
    or a chunk out of these bounds. *)
Fixpoint chunks_end (from : Z) (chunks : list (Z * Z)) : option Z :=
  match chunks with
  | [] => Some from
  | (offset, len) :: rest =>
      if (offset =? from) && (0 <? len) && (len <=? 4 * 1024 * 1024)
      then chunks_end (from + len) rest
      else None
  end.

(** A call of the Dropbox SDK. *)
Definition sdk_call (e : event) : bool :=
  match e with
  | ECreateFolderV2 _ _ | EFilesUpload _ _ _ | ESessionStart _ _
  | ESessionAppend _ _ _ | ESessionFinish _ _ _ _ _ => true
  | _ => false
  end.

(** A call that commits a file, whatever its outcome. *)
Definition commit_call (e : event) : bool :=
  match e with
  | EFilesUpload _ _ _ | ESessionFinish _ _ _ _ _ => true
  | _ => false
  end.

(** Taking and removing the temporary directory. *)
Definition temp_event (e : event) : bool :=
  match e with EMkdtemp _ | ECleanup _ => true | _ => false end.

(** A call of the repository directory. *)
Definition directory_call (e : event) : bool :=
  match e with EListRepos _ _ | EGetRepo _ _ _ => true | _ => false end.

(** The lookups by account and name, in order. *)
Definition lookups (t : list event) : list (string * string) :=
  flat_map (fun e => match e with
                     | EGetRepo owner repo_name _ => [(owner, repo_name)]
                     | _ => []
                     end) t.

(** What [upload_file local_path dropbox_path] may name in its calls. *)
Definition upload_names (local_path dropbox_path : string) (e : event) : Prop :=
  match e with
  | EOpen p _ => p = local_path
  | EFilesUpload p _ _ | ESessionFinish _ _ p _ _ => p = dropbox_path
  | EListRepos _ _ | EGetRepo _ _ _ | EMkdtemp _ | ECleanup _
  | EGitClone _ _ _ | EZipWrite _ _ _ | ECreateFolderV2 _ _ => False
  | _ => True
  end.

(** The places a backup of [repo] works with, given its temporary
    directory and the time stamp in the name of its archive. *)
Definition backup_names (backup_folder : string) (repo : Repository)
    (temp_dir timestamp : string) (e : event) : Prop :=
  let zip_filename := fmt [name repo; "_"; timestamp; ".zip"] in
  let zip_path := path_str (path_div [temp_dir] zip_filename) in
  match e with
  | EMkdtemp d | ECleanup d => d = temp_dir
  | EGitClone url dest _ =>
      url = clone_url repo /\ dest = path_str (path_div [temp_dir] (name repo))
  | EZipWrite p _ _ => p = zip_path
  | ECreateFolderV2 p _ => p = fmt [backup_folder; "/"; name repo]
  | EOpen p _ => p = zip_path
  | EFilesUpload p _ _ | ESessionFinish _ _ p _ _ =>
      p = fmt [backup_folder; "/"; name repo; "/"; zip_filename]
  | EListRepos _ _ | EGetRepo _ _ _ => False
  | _ => True
  end.


(** A tree in which the entries of every directory have different names,
    as a file system has it. *)
Inductive well_formed : node -> Prop :=
| wf_file data : well_formed (File data)
| wf_other : well_formed Other
| wf_dir entries :
    NoDup (map fst entries) ->
    Forall (fun e => well_formed (snd e)) entries ->
    well_formed (Dir entries).

(** A world in which nothing outside the process works: every call that
    can raise does. *)
Module Outage.

Definition unreachable : exn := mkExn OtherException "Connection refused".
Definition missing : exn := mkExn FileNotFoundError "No such file or directory".

#[global] Instance collaborators : Collaborators unit := {
  gh_get_user_repositories _ w := (inl unreachable, w);
  gh_get_repository _ _ w := (inl unreachable, w);
  fs_mkdtemp w := ("/tmp/tmpq1", w);
  fs_cleanup _ w := w;
  run_git_clone_mirror _ _ w := (inl (mkExn TimeoutExpired "timed out after 300 seconds"), w);
  fs_tree _ _ := Other;
  zip_write _ _ w := (inl missing, w);
  fs_open_size _ w := (inl missing, w);
  now_strftime _ := "20240229_120000";
  now_isoformat _ := "2024-02-29T12:00:00";
  files_create_folder_v2 _ w := (inl unreachable, w);
  files_upload _ _ _ w := (inl unreachable, w);
  files_upload_session_start _ w := (inl unreachable, w);
  files_upload_session_append_v2 _ _ _ w := (inl unreachable, w);
  files_upload_session_finish _ _ _ _ _ w := (inl unreachable, w)
}.

Definition start : St unit unit := mkSt tt tt.

End Outage.

(** ** github_client.GitHubClient, behind its interface *)

Module GitHubClient.

(** An object of the API's JSON, as the keys the code reads, each with the
    type the API gives it; a key the object does not have is [None]. *)
Record repo_data := mkData {
  d_name : option string;
  d_full_name : option string;
  d_clone_url : option string;
  d_default_branch : option string;
  d_private : option bool;
  d_size : option Z;
  d_updated_at : option string
}.

(** The [params] of a listing request. *)
Record params := mkParams {
  page : Z;
  per_page : Z;
  sort : string;
  direction : string
}.

(** What the client does, in order: a request with what came back ([inl e]
    when [session.get], [raise_for_status] or [json] raised [e]), or a line
    of its log. *)
Inductive step :=
| GetList (url : string) (p : params) (res : exn + list repo_data)
| GetObject (url : string) (res : exn + repo_data)
| Info (msg : string).

(** [self.session], over a world [W] the requests may read and change. *)
Class Session (W : Type) := {
  (* response = session.get(url, params=p); response.raise_for_status();
     response.json(), a list of objects *)
  session_get_list : string -> params -> W -> (exn + list repo_data) * W;
  (* response = session.get(url); response.raise_for_status();
     response.json(), one object *)
  session_get_object : string -> W -> (exn + repo_data) * W
}.

(** What [__init__] leaves in [self]. *)
Record client := mkClient {
  token : string;
  headers : list (string * string)
}.

(** [token or os.getenv('GITHUB_TOKEN')], [env] being what [os.getenv]
    gives. *)
Definition py_or (a b : option string) : option string :=
  match truthy a with
  | Some s => Some s
  | None => b
  end.

(** [GitHubClient.__init__]. *)
Definition init (token : option string) (env : option string) : exn + client :=
  match truthy (py_or token env) with
  | None =>
      inl (mkExn ValueError
             "GitHub token is required. Set GITHUB_TOKEN env var or pass token parameter.")
  | Some t =>
      inr (mkClient t [("Authorization", fmt ["token "; t]);
                       ("Accept", "application/vnd.github.v3+json");
                       ("User-Agent", "github-backup-tool")])
  end.

Definition base_url : string := "https://api.github.com".

(** [repo_data[key]] raises [KeyError(key)] when the key is missing; its
    text is the [repr] of the key. *)
Definition KeyError (key : string) : exn := mkExn OtherException (fmt ["'"; key; "'"]).

Definition item {A} (key : string) (v : option A) : exn + A :=
  match v with
  | Some a => inr a
  | None => inl (KeyError key)
  end.

Definition and_then {A B} (r : exn + A) (k : A -> exn + B) : exn + B :=
  match r with
  | inl e => inl e
  | inr a => k a
  end.

(** [Repository(name=repo_data['name'], ...)]: the keys are read in the
    order of the arguments. *)
Definition make_repository (d : repo_data) : exn + Repository :=
  and_then (item "name" (d_name d)) (fun n =>
  and_then (item "full_name" (d_full_name d)) (fun f =>
  and_then (item "clone_url" (d_clone_url d)) (fun c =>
  and_then (item "default_branch" (d_default_branch d)) (fun b =>
  and_then (item "private" (d_private d)) (fun p =>
  and_then (item "size" (d_size d)) (fun z =>
  and_then (item "updated_at" (d_updated_at d)) (fun u =>
  inr (mkRepository n f c b p z u)))))))).

(** The [for repo_data in data] loop, lines 75-85. *)
Fixpoint append_all (data : list repo_data) (repos : list Repository)
  : exn + list Repository :=
  match data with
  | [] => inr repos
  | d :: rest =>
      match make_repository d with
      | inl e => inl e
      | inr repo => append_all rest (repos ++ [repo])
      end
  end.

(** The [params] of the request for one page. *)
Definition listing_params (page : Z) : params := mkParams page 100 "updated" "desc".

Section Requests.
Context {W : Type} `{Session W}.

(** The [while True] loop of [get_user_repositories], lines 62-87.  It is
    left by [break] on an empty page or by an exception; nothing else bounds
    its turns, so the model takes [fuel], one unit for each turn, and gives
    [None] when the fuel does not suffice. *)
Fixpoint pages_loop (fuel : nat) (url : string) (page : Z) (repos : list Repository)
    (w : W) : option ((exn + list Repository) * W * list step) :=
  match fuel with
  | O => None
  | S fuel' =>
      let p := listing_params page in
      match session_get_list url p w with
      | (inl e, w') => Some (inl e, w', [GetList url p (inl e)])
      | (inr [], w') =>
          (* if not data: break *)
          Some (inr repos, w', [GetList url p (inr [])])
      | (inr data, w') =>
          match append_all data repos with
          | inl e => Some (inl e, w', [GetList url p (inr data)])
          | inr repos' =>
              match pages_loop fuel' url (page + 1) repos' w' with
              | None => None
              | Some (r, w'', t) => Some (r, w'', GetList url p (inr data) :: t)
              end
          end
      end
  end.

(** The URL [get_user_repositories] lists. *)
Definition listing_url (username : option string) : string :=
  match truthy username with
  | Some u => fmt [base_url; "/users/"; u; "/repos"]
  | None => fmt [base_url; "/user/repos"]
  end.

(** [GitHubClient.get_user_repositories]. *)
Definition get_user_repositories (fuel : nat) (username : option string) (w : W)
  : option ((exn + list Repository) * W * list step) :=
  match pages_loop fuel (listing_url username) 1 [] w with
  | None => None
  | Some (inl e, w', t) => Some (inl e, w', t)
  | Some (inr repos, w', t) =>
      Some (inr repos, w',
            t ++ [Info (fmt ["Found "; str_of_int (Z.of_nat (length repos));
                             " repositories"])])
  end.

(** [GitHubClient.get_repository]. *)
Definition get_repository (owner repo_name : string) (w : W)
  : (exn + Repository) * W * list step :=
  let url := fmt [base_url; "/repos/"; owner; "/"; repo_name] in
  match session_get_object url w with
  | (inl e, w') => (inl e, w', [GetObject url (inl e)])
  | (inr repo_data, w') => (make_repository repo_data, w', [GetObject url (inr repo_data)])
  end.

End Requests.

(** The listing requests of a run, and the objects they brought. *)
Fixpoint requests (t : list step) : list (string * params) :=
  match t with
  | [] => []
  | GetList url p _ :: rest => (url, p) :: requests rest
  | _ :: rest => requests rest
  end.

Fixpoint listed (t : list step) : list repo_data :=
  match t with
  | [] => []
  | GetList _ _ (inr data) :: rest => data ++ listed rest
  | _ :: rest => listed rest
  end.

(** The lines of the log. *)
Fixpoint logged (t : list step) : list string :=
  match t with
  | [] => []
  | Info msg :: rest => msg :: logged rest
  | _ :: rest => logged rest
  end.

(** The repository an object describes. *)
Definition describes (d : repo_data) (r : Repository) : Prop :=
  d_name d = Some (name r) /\
  d_full_name d = Some (full_name r) /\
  d_clone_url d = Some (clone_url r) /\
  d_default_branch d = Some (default_branch r) /\
  d_private d = Some (private r) /\
  d_size d = Some (size r) /\
  d_updated_at d = Some (updated_at r).

(** A request for a page that brought at least one object. *)
Definition full_page (s : step) : Prop :=
  match s with
  | GetList _ _ (inr (_ :: _)) => True
  | _ => False
  end.

(** An object that has the seven keys. *)
Definition complete (d : repo_data) : bool :=
  match make_repository d with
  | inr _ => true
  | inl _ => false
  end.

(** A directory that does not change: its listing is the pages the world
    holds, whatever the URL; a page past the last is empty. *)
Module Served.

Definition world := list (list repo_data).

#[global] Instance session : Session world := {
  session_get_list _ p w := (inr (nth (Z.to_nat (page p - 1)) w []), w);
  session_get_object _ w :=
    match concat w with
    | d :: _ => (inr d, w)
    | [] => (inl (mkExn (HTTPError 404) "404 Client Error: Not Found"), w)
    end
}.

Definition data_of (r : Repository) : repo_data :=
  mkData (Some (name r)) (Some (full_name r)) (Some (clone_url r))
         (Some (default_branch r)) (Some (private r)) (Some (size r))
         (Some (updated_at r)).

Definition without_size (d : repo_data) : repo_data :=
  mkData (d_name d) (d_full_name d) (d_clone_url d) (d_default_branch d)
         (d_private d) None (d_updated_at d).

Definition two_pages : world :=
  [[data_of Scenario.repo_a]; [data_of Scenario.repo_b]].

End Served.

(** A directory that answers every page with the same object. *)
Module Endless.

#[global] Instance session : Session unit := {
  session_get_list _ _ w := (inr [Served.data_of Scenario.repo_a], w);
  session_get_object _ w := (inr (Served.data_of Scenario.repo_a), w)
}.

End Endless.

End GitHubClient.

(** ** The construction of the manager, and the commands of [cli.py] *)

(** [s.rstrip(c)] for one character [c]. *)
Fixpoint rstrip (c : Ascii.ascii) (s : string) : string :=
  match s with
  | EmptyString => EmptyString
  | String a rest =>
      match rstrip c rest with
      | EmptyString => if Ascii.eqb a c then EmptyString else String a EmptyString
      | kept => String a kept
      end
  end.

(** [s * n]. *)
Fixpoint times (s : string) (n : nat) : string :=
  match n with
  | O => EmptyString
  | S n' => String.append s (times s n')
  end.

(** The newline character. *)
Definition nl : string := String "010"%char EmptyString.

(** What [users_get_current_account] does: it returns, raises
    [dropbox.exceptions.AuthError] (with the text [str] gives), or raises
    something else. *)
Inductive account_check :=
| Connected
| AuthError (text : string)
| CheckRaised (e : exn).

(** What the constructors and the commands ask of the process around them. *)
Class Process (W : Type) := {
  (* os.getenv(name) *)
  os_getenv : string -> W -> option string;
  (* dropbox.Dropbox(access_token).users_get_current_account() *)
  users_get_current_account : string -> W -> account_check * W;
  (* with open(output, 'w') as f: json.dump(results, f, indent=2) *)
  json_dump_full : string -> Full.results -> W -> (exn + unit) * W;
  json_dump_targeted : string -> Targeted.results -> W -> (exn + unit) * W
}.

(** Where [click.echo] writes: the standard output, or with [err=True] the
    standard error. *)
Inductive stream := Out | Err.

(** How a command ends: the exit status of the process, the lines echoed,
    the world it leaves, and the events of the manager. *)
Record finished (W : Type) := mkFinished {
  exit_status : Z;
  echoed : list (stream * string);
  world_after : W;
  calls : list event
}.
Arguments mkFinished {W}.
Arguments exit_status {W}.
Arguments echoed {W}.
Arguments world_after {W}.
Arguments calls {W}.

Section Commands.
Context {W : Type} `{Collaborators W} `{Process W}.

(** [DropboxClient.__init__]; what it gives is [self.access_token]. *)
Definition DropboxClient_init (access_token : option string) (w : W)
  : (exn + string) * W * list event :=
  match truthy (GitHubClient.py_or access_token (os_getenv "DROPBOX_ACCESS_TOKEN" w)) with
  | None =>
      (inl (mkExn ValueError
              "Dropbox access token is required. Set DROPBOX_ACCESS_TOKEN env var or pass token parameter."),
       w, [])
  | Some t =>
      (* Test connection *)
      match users_get_current_account t w with
      | (Connected, w') => (inr t, w', [ELog INFO "Successfully connected to Dropbox"])
      | (AuthError text, w') =>
          (inl (mkExn ValueError (fmt ["Invalid Dropbox access token: "; text])), w', [])
      | (CheckRaised e, w') => (inl e, w', [])
      end
  end.

(** [BackupManager.__init__]; what it gives is [self.backup_folder], the two
    clients being the collaborators of the world. *)
Definition BackupManager_init (github_token dropbox_token : option string)
    (backup_folder : string) (w : W) : (exn + string) * W * list event :=
  match GitHubClient.init github_token (os_getenv "GITHUB_TOKEN" w) with
  | inl e => (inl e, w, [])
  | inr _ =>
      match DropboxClient_init dropbox_token w with
      | (inl e, w', t) => (inl e, w', t)
      | (inr _, w', t) => (inr (rstrip "/"%char backup_folder), w', t)
      end
  end.

(** [except Exception as e: click.echo(f"Error: {e}", err=True); sys.exit(1)],
    after the lines [out] were echoed. *)
Definition exit_on_error (e : exn) (out : list (stream * string)) (w : W)
    (t : list event) : finished W :=
  mkFinished 1 (out ++ [(Err, fmt ["Error: "; str e])]) w t.

(** [click.echo(line)] for each line. *)
Definition echo (lines : list string) : list (stream * string) :=
  map (fun line => (Out, line)) lines.

(** The command [backup_all], lines 44-92.  [sys.exit(1)] raises
    [SystemExit], which [except Exception] does not catch; a command that
    returns leaves the process with status 0. *)
Definition backup_all (github_token dropbox_token : option string)
    (backup_folder : string) (username : option string) (exclude : list string)
    (include_private : bool) (output : option string) (w : W) : finished W :=
  match BackupManager_init github_token dropbox_token backup_folder w with
  | (inl e, w1, t0) => exit_on_error e [] w1 t0
  | (inr folder, w1, t0) =>
      let out1 :=
        echo [fmt ["Starting backup for user: ";
                   match truthy username with
                   | Some u => u
                   | None => "authenticated user"
                   end];
              fmt ["Backup folder: "; backup_folder]] ++
        match exclude with
        | [] => []
        | _ => echo [fmt ["Excluding repositories: "; String.concat ", " exclude]]
        end in
      match backup_all_repositories folder username (Some exclude) include_private
              (mkSt w1 tt) with
      | (inl e, s2, t1) => exit_on_error e out1 (world s2) (t0 ++ t1)
      | (inr results, s2, t1) =>
          (* Display results *)
          let out2 :=
            out1 ++
            echo [fmt [nl; times "=" 50];
                  "BACKUP RESULTS";
                  times "=" 50;
                  fmt ["Total repositories: "; str_of_int (Full.total_repos results)];
                  fmt ["Successful backups: ";
                       str_of_int (Full.successful_backups results)];
                  fmt ["Failed backups: "; str_of_int (Full.failed_backups results)];
                  fmt ["Skipped repositories: ";
                       str_of_int (Full.skipped_repos results)]] ++
            (if 0 <? Full.failed_backups results then
               echo (fmt [nl; "Failed repositories:"] ::
                     map (fun detail => fmt ["  - "; bd_repo_name detail])
                         (filter (fun detail => negb (bd_success detail))
                                 (Full.backup_details results)))
             else []) in
          (* Save results to file if requested *)
          let saved :=
            match truthy output with
            | Some path =>
                match json_dump_full path results (world s2) with
                | (inl e, w3) => (inl e, w3)
                | (inr _, w3) => (inr (echo [fmt [nl; "Results saved to: "; path]]), w3)
                end
            | None => (inr [], world s2)
            end in
          match saved with
          | (inl e, w3) => exit_on_error e out2 w3 (t0 ++ t1)
          | (inr out3, w3) =>
              (* Exit with error code if any backups failed *)
              mkFinished (if 0 <? Full.failed_backups results then 1 else 0)
                         (out2 ++ out3) w3 (t0 ++ t1)
          end
      end
  end.

(** The command [backup_repos], lines 106-150. *)
Definition backup_repos (repositories : list string)
    (github_token dropbox_token : option string) (backup_folder : string)
    (username : option string) (output : option string) (w : W) : finished W :=
  match BackupManager_init github_token dropbox_token backup_folder w with
  | (inl e, w1, t0) => exit_on_error e [] w1 t0
  | (inr folder, w1, t0) =>
      let out1 :=
        echo [fmt ["Starting backup for repositories: ";
                   String.concat ", " repositories];
              fmt ["Backup folder: "; backup_folder]] in
      match backup_specific_repositories folder repositories username (mkSt w1 tt) with
      | (inl e, s2, t1) => exit_on_error e out1 (world s2) (t0 ++ t1)
      | (inr results, s2, t1) =>
          (* Display results *)
          let out2 :=
            out1 ++
            echo [fmt [nl; times "=" 50];
                  "BACKUP RESULTS";
                  times "=" 50;
                  fmt ["Requested repositories: ";
                       str_of_int (Targeted.requested_repos results)];
                  fmt ["Successful backups: ";
                       str_of_int (Targeted.successful_backups results)];
                  fmt ["Failed backups: "; str_of_int (Targeted.failed_backups results)];
                  fmt ["Not found repositories: ";
                       str_of_int (Targeted.not_found_repos results)]] ++
            (if 0 <? Targeted.failed_backups results then
               echo (fmt [nl; "Failed repositories:"] ::
                     map (fun detail =>
                            fmt ["  - "; bd_repo_name detail; ": ";
                                 match bd_error detail with
                                 | Some text => text
                                 | None => "Unknown error"
                                 end])
                         (filter (fun detail => negb (bd_success detail))
                                 (Targeted.backup_details results)))
             else []) in
          (* Save results to file if requested *)
          let saved :=
            match truthy output with
            | Some path =>
                match json_dump_targeted path results (world s2) with
                | (inl e, w3) => (inl e, w3)
                | (inr _, w3) => (inr (echo [fmt [nl; "Results saved to: "; path]]), w3)
                end
            | None => (inr [], world s2)
            end in
          match saved with
          | (inl e, w3) => exit_on_error e out2 w3 (t0 ++ t1)
          | (inr out3, w3) =>
              (* Exit with error code if any backups failed *)
              mkFinished (if (0 <? Targeted.failed_backups results)
                              || (0 <? Targeted.not_found_repos results)
                          then 1 else 0)
                         (out2 ++ out3) w3 (t0 ++ t1)
          end
      end
  end.

End Commands.

(** The lines a command sent to one stream. *)
Definition lines_of (which : stream) (out : list (stream * string)) : list string :=
  map snd (filter (fun l => match fst l, which with
                            | Out, Out | Err, Err => true
                            | _, _ => false
                            end) out).

(** A string that ends with the character [c]. *)
Fixpoint ends_with (c : Ascii.ascii) (s : string) : bool :=
  match s with
  | EmptyString => false
  | String a EmptyString => Ascii.eqb a c
  | String _ rest => ends_with c rest
  end.

(** A process around the concrete world: both tokens are in the
    environment, the account answers, the results can be written. *)
Module Desk.

#[global] Instance process : Process Scenario.world := {
  os_getenv var _ :=
    if String.eqb var "GITHUB_TOKEN" then Some "ghp_0123"
    else if String.eqb var "DROPBOX_ACCESS_TOKEN" then Some "sl.4567"
    else None;
  users_get_current_account _ w := (Connected, w);
  json_dump_full _ _ w := (inr tt, w);
  json_dump_targeted _ _ w := (inr tt, w)
}.

End Desk.

(** A process with an empty environment, around the world in which nothing
    works. *)
Module Bare.

#[global] Instance process : Process unit := {
  os_getenv _ _ := None;
  users_get_current_account _ w := (AuthError "expired_access_token", w);
  json_dump_full _ _ w := (inl Outage.missing, w);
  json_dump_targeted _ _ w := (inl Outage.missing, w)
}.

End Bare.

(** ** The archive holds the regular files of the mirror *)

Section Archive.

(** Induction on a tree, with the hypothesis for every entry of a directory. *)
Lemma node_tree_ind (P : node -> Prop) :
  (forall data, P (File data)) ->
  P Other ->
  (forall entries, Forall (fun e => P (snd e)) entries -> P (Dir entries)) ->
  forall n, P n.
Proof.
  intros HF HO HD.
  fix IH 1.
  intros [data | entries | ].
  - apply HF.
  - apply HD. induction entries as [| [c k] rest IHrest].
    + constructor.
    + constructor; [apply IH | exact IHrest].
  - exact HO.
Qed.

Lemma relative_to_app (base rel : Path) : relative_to (base ++ rel) base = Some rel.
Proof.
  induction base as [| c base IH]; simpl.
  - reflexivity.
  - rewrite String.eqb_refl. exact IH.
Qed.

Lemma rglob_sound (n : node) :
  forall base q m, In (q, m) (rglob base n) ->
    exists rel, rel <> [] /\ q = base ++ rel /\ reaches n rel m.
Proof.
  induction n as [data | | entries IH] using node_tree_ind; simpl; intros base q m Hin;
    try contradiction.
  apply in_app_or in Hin. destruct Hin as [Hin | Hin].
  - apply in_map_iff in Hin. destruct Hin as [[c k] [Heq Hck]]. simpl in Heq.
    inversion Heq; subst. exists [c]. repeat split.
    + discriminate.
    + econstructor; [exact Hck | constructor].
  - apply in_flat_map in Hin. destruct Hin as [[c k] [Hck Hin]]. simpl in Hin.
    rewrite Forall_forall in IH. specialize (IH _ Hck _ _ _ Hin).
    destruct IH as [rel [Hne [Hq Hr]]]. simpl in *.
    exists (c :: rel). repeat split.
    + discriminate.
    + rewrite Hq. unfold path_div. rewrite <- app_assoc. reflexivity.
    + econstructor; eassumption.
Qed.

Lemma rglob_complete (n : node) :
  forall base rel m, rel <> [] -> reaches n rel m -> In (base ++ rel, m) (rglob base n).
Proof.
  intros base rel m Hne Hr. revert base Hne.
  induction Hr as [n | entries c k p m Hck Hr IH]; intros base Hne.
  - contradiction.
  - simpl. apply in_or_app. destruct p as [| c' p'].
    + left. inversion Hr; subst. apply in_map_iff. exists (c, m). split; [reflexivity | exact Hck].
    + right. apply in_flat_map. exists (c, k). split; [exact Hck |]. simpl.
      specialize (IH (path_div base c)). unfold path_div in *.
      rewrite <- app_assoc in IH. apply IH. discriminate.
Qed.

Lemma zip_entries_spec (base : Path) (found : list (Path * node)) :
  (forall q m, In (q, m) found -> exists rel, q = base ++ rel) ->
  exists members, zip_entries base found = inr members /\
    forall p data, In (p, data) members <->
                   In (base ++ p, File data) found.
Proof.
  induction found as [| [q n] rest IH]; intros Hpre.
  - exists []. split; [reflexivity |]. intros; simpl; tauto.
  - destruct IH as [members [Hz Hm]].
    { intros q' m' Hin. apply (Hpre q' m'). right; exact Hin. }
    destruct (Hpre q n (or_introl eq_refl)) as [rel Hq]. subst q.
    destruct n as [data | entries | ]; simpl.
    + rewrite relative_to_app, Hz. eexists. split; [reflexivity |].
      intros p d. simpl. rewrite Hm. split.
      * intros [Heq | Hin]; [left | right; exact Hin]. inversion Heq; subst. reflexivity.
      * intros [Heq | Hin]; [left | right; exact Hin]. inversion Heq; subst.
        apply app_inv_head in H0. subst. reflexivity.
    + exists members. split; [exact Hz |]. intros p d. rewrite Hm. simpl.
      split; [tauto | intros [Heq | Hin]; [discriminate | exact Hin]].
    + exists members. split; [exact Hz |]. intros p d. rewrite Hm. simpl.
      split; [tauto | intros [Heq | Hin]; [discriminate | exact Hin]].
Qed.

Lemma archive_entries_spec (repo_path : Path) (mirror : node) :
  exists members, archive_entries repo_path mirror = inr members /\
    forall p data, In (p, data) members <-> regular_file_at mirror p data.
Proof.
  unfold archive_entries.
  destruct (zip_entries_spec repo_path (rglob repo_path mirror)) as [members [Hz Hm]].
  { intros q m Hin. apply rglob_sound in Hin. destruct Hin as [rel [_ [Hq _]]]. eauto. }
  exists members. split; [exact Hz |]. intros p data. rewrite Hm. unfold regular_file_at. split.
  - intros Hin. apply rglob_sound in Hin. destruct Hin as [rel [Hne [Hq Hr]]].
    apply app_inv_head in Hq. subst. auto.
  - intros [Hne Hr]. apply rglob_complete; assumption.
Qed.

End Archive.

(** ** Reasoning about runs: the upload *)

Ltac unfold_monad :=
  unfold result_of, state_after, events_of, bind, try_except, finally, in_frame,
    call, call_ok, log, ret, raise, ask, get_locals, modify_locals in *.

(** Run the next collaborator call both ways. *)
Ltac run_call :=
  match goal with
  | |- context [match ?c with pair _ _ => _ end] =>
      lazymatch type of c with
      | (sum exn _ * _)%type =>
          let r := fresh "r" in let w := fresh "w" in
          destruct c as [r w]; destruct r as [?e | ?a]; simpl
      end
  end.

#[local] Arguments Z.mul : simpl never.
#[local] Arguments Z.of_nat : simpl never.

Section Upload.
Context {W : Type} `{Collaborators W} {L : Type}.

Lemma CHUNK_SIZE_pos : 0 < CHUNK_SIZE.
Proof. reflexivity. Qed.

(** The loop of [_upload_large_file] does not depend on its fuel, once
    there is enough of it for the bytes left. *)
Lemma upload_session_loop_fuel (sid path : string) (file_size : Z) (ow : bool) :
  forall (f1 f2 : nat) (tell : Z) (s : St W L),
    file_size - tell <= Z.of_nat f1 * CHUNK_SIZE ->
    file_size - tell <= Z.of_nat f2 * CHUNK_SIZE ->
    upload_session_loop f1 sid path file_size ow tell s =
    upload_session_loop f2 sid path file_size ow tell s.
Proof.
  pose proof CHUNK_SIZE_pos as Hc.
  induction f1 as [| f1 IH]; intros f2 tell s H1 H2.
  - destruct f2 as [| f2]; [reflexivity |]. simpl.
    destruct (Z.ltb_spec tell file_size); [lia | reflexivity].
  - destruct f2 as [| f2]; simpl.
    + destruct (Z.ltb_spec tell file_size); [lia | reflexivity].
    + destruct (Z.ltb_spec tell file_size); [| reflexivity].
      destruct (Z.leb_spec (file_size - tell) CHUNK_SIZE); [reflexivity |].
      unfold bind, call.
      destruct (files_upload_session_append_v2 sid tell _ (world s)) as [[e | []] w];
        [reflexivity |].
      rewrite (IH f2); [reflexivity | |]; simpl; lia.
Qed.

Lemma upload_session_loop_run (sid path : string) (file_size : Z) (ow : bool) :
  forall (fuel : nat) (tell : Z) (s : St W L),
    let m := upload_session_loop fuel sid path file_size ow tell in
    locals (state_after m s) = locals s /\
    forallb upload_step (events_of m s) = true /\
    (ow = true -> forallb commits_overwriting (events_of m s) = true) /\
    (forall e, result_of m s = inl e -> existsb upload_ok (events_of m s) = false) /\
    (tell < file_size -> file_size - tell <= Z.of_nat fuel * CHUNK_SIZE ->
     forall u, result_of m s = inr u -> existsb upload_ok (events_of m s) = true).
Proof.
  pose proof CHUNK_SIZE_pos as Hc.
  induction fuel as [| fuel IH]; intros tell s; simpl.
  - unfold_monad; simpl. repeat split; try discriminate. intros; lia.
  - destruct (Z.ltb_spec tell file_size) as [Hlt | Hge].
    2:{ unfold_monad; simpl. repeat split; try discriminate. intros; lia. }
    destruct (Z.leb_spec (file_size - tell) CHUNK_SIZE) as [Hlast | Hmore].
    + unfold_monad. run_call; repeat split; try discriminate; auto;
        destruct ow; intros; try discriminate; reflexivity.
    + specialize (IH (tell + Z.min CHUNK_SIZE (file_size - tell))).
      unfold_monad. run_call.
      * repeat split; try discriminate; auto.
      * specialize (IH (mkSt w (locals s))). simpl in IH.
        destruct (upload_session_loop fuel sid path file_size ow _ _) as [[r s'] t].
        simpl in *. destruct IH as (Hl & Hs & Ho & He & Hk).
        repeat split; auto. intros _ Hfuel u Hr. apply (Hk) with (u := u); auto; lia.
Qed.

(** The fuel [_upload_large_file] gives its loop is enough: more of it
    changes nothing. *)
Lemma upload_large_file_fuel (sid path : string) (file_size : Z) (ow : bool)
    (extra : nat) (s : St W L) :
  0 <= file_size ->
  let first := Z.max 0 (Z.min CHUNK_SIZE file_size) in
  let fuel := S (Z.to_nat (file_size / CHUNK_SIZE)) in
  upload_session_loop fuel sid path file_size ow first s =
  upload_session_loop (fuel + extra) sid path file_size ow first s.
Proof.
  intros Hsize first fuel. pose proof CHUNK_SIZE_pos as Hc.
  assert (Hfuel : file_size - first <= Z.of_nat fuel * CHUNK_SIZE).
  { unfold fuel, first.
    rewrite Nat2Z.inj_succ, Z2Nat.id by (apply Z.div_pos; lia).
    pose proof (Z.mul_succ_div_gt file_size CHUNK_SIZE Hc). lia. }
  apply upload_session_loop_fuel; [exact Hfuel |].
  rewrite Nat2Z.inj_add. nia.
Qed.

#[local] Arguments upload_session_loop : simpl never.

Lemma upload_file_run (local_path dropbox_path : string) (ow : bool) (s : St W L) :
  let m := upload_file local_path dropbox_path ow in
  exists b, result_of m s = inr b /\
    locals (state_after m s) = locals s /\
    forallb upload_scope (events_of m s) = true /\
    (ow = true -> forallb commits_overwriting (events_of m s) = true) /\
    existsb upload_ok (events_of m s) = b.
Proof.
  unfold upload_file, _upload_large_file. unfold_monad. run_call.
  - destruct (exn_class_of e); simpl; eexists; repeat split; reflexivity.
  - destruct (Z.leb_spec a SIMPLE_UPLOAD_LIMIT) as [Hsmall | Hlarge].
    + run_call.
      * destruct (exn_class_of e); simpl; eexists; repeat split; destruct ow;
          intros; try discriminate; reflexivity.
      * eexists; repeat split; destruct ow; intros; try discriminate; reflexivity.
    + run_call.
      * destruct (exn_class_of e); simpl; eexists; repeat split; reflexivity.
      * match goal with |- context [upload_session_loop ?f ?sid ?p ?sz ?o ?tl ?st] =>
          pose proof (upload_session_loop_run sid p sz o f tl st) as Hloop;
          unfold result_of, state_after, events_of in Hloop;
          destruct (upload_session_loop f sid p sz o tl st) as [[r s'] t]
        end.
        simpl in Hloop. destruct Hloop as (Hl & Hs & Ho & He & Hk).
        assert (Hscope : forallb upload_scope t = true).
        { rewrite forallb_forall in *. intros x Hx. unfold upload_scope.
          rewrite (Hs x Hx). reflexivity. }
        destruct r as [e | u].
        -- specialize (He e eq_refl).
           destruct (exn_class_of e); simpl; eexists; repeat split; auto;
             rewrite ?forallb_app, ?existsb_app, ?Hscope, ?He; simpl; auto;
             intros; rewrite Ho; auto.
        -- assert (Hok : existsb upload_ok t = true).
           { apply (Hk) with (u := u); auto.
             - unfold SIMPLE_UPLOAD_LIMIT, CHUNK_SIZE in *. lia.
             - unfold SIMPLE_UPLOAD_LIMIT, CHUNK_SIZE in *.
               rewrite Nat2Z.inj_succ, Z2Nat.id by (apply Z.div_pos; lia).
               pose proof (Z.mul_succ_div_gt a (4 * 1024 * 1024) ltac:(lia)). lia. }
           simpl; eexists; repeat split; auto;
             rewrite ?forallb_app, ?existsb_app, ?Hscope, ?Hok; simpl; auto;
             intros; rewrite Ho; auto.
Qed.

End Upload.

(** ** One run of [backup_repository] *)

Lemma forallb_excludes (P Q : event -> bool) (t : list event) :
  (forall e, P e = true -> Q e = false) ->
  forallb P t = true -> existsb Q t = false.
Proof.
  intros HPQ. induction t as [| e t IH]; simpl; [reflexivity |].
  intros Hall. apply andb_true_iff in Hall. destruct Hall as [He Ht].
  rewrite (HPQ e He), (IH Ht). reflexivity.
Qed.

Lemma filter_none (Q : event -> bool) (t : list event) :
  existsb Q t = false -> filter Q t = [].
Proof.
  induction t as [| e t IH]; simpl; [reflexivity |].
  intros Hex. apply orb_false_iff in Hex. destruct Hex as [He Ht].
  rewrite He. auto.
Qed.

Ltac by_kind :=
  let e := fresh "e" in
  intros e; destruct e as [ | | | | | | | | | | | | ]; simpl;
  try discriminate; try reflexivity;
  repeat match goal with
         | |- context [match ?r with inl _ => _ | inr _ => _ end] => destruct r
         | |- context [exn_class_of ?x] => destruct (exn_class_of x)
         | |- context [match ?b with true => _ | false => _ end] => destruct b
         end; try discriminate; reflexivity.

Lemma upload_scope_only (t : list event) :
  forallb upload_scope t = true ->
  existsb clone_ok t = false /\ existsb archive_step t = false /\
  existsb archive_ok t = false /\ existsb folder_step t = false /\
  existsb folder_raised t = false /\ existsb folder_ok t = false /\
  existsb listing_call t = false /\ filter clone_attempt t = [].
Proof.
  intros Hs. repeat split; try apply filter_none;
    (eapply forallb_excludes; [| exact Hs]); unfold upload_scope; by_kind.
Qed.

#[local] Arguments upload_file : simpl never.

(** Run [upload_file] by what [upload_file_run] says of it. *)
Ltac run_upload :=
  match goal with
  | |- context [upload_file ?l ?d ?o ?st] =>
      let b := fresh "b" in let r := fresh "r" in let ut := fresh "ut" in
      let w' := fresh "w" in let l' := fresh "l" in
      destruct (upload_file_run l d o st) as (b & Hr & Hl & Hsc & Hov & Hok);
      unfold result_of, state_after, events_of in Hr, Hl, Hsc, Hov, Hok;
      destruct (upload_file l d o st) as [[r [w' l']] ut];
      simpl in Hr, Hl, Hsc, Hov, Hok; subst r l';
      specialize (Hov eq_refl); simpl;
      destruct (upload_scope_only ut Hsc) as (U1 & U2 & U3 & U4 & U5 & U6 & U7 & U8);
      destruct b
  end.

Ltac conclude :=
  simpl;
  repeat match goal with
         | Heq : _ = _ |- _ => rewrite Heq
         end;
  simpl; do 3 eexists; repeat split;
  rewrite ?filter_app, ?existsb_app, ?forallb_app; simpl;
  repeat match goal with
         | Heq : _ = _ |- _ => rewrite Heq
         end;
  simpl; try reflexivity; try discriminate.

Section Backup.
Context {W : Type} `{Collaborators W} {L : Type}.
Variable backup_folder : string.

(** One run of [backup_repository], in full: its result, its clone call, its
    steps and the mode of its uploads. *)
Lemma backup_repository_run (repo : Repository) (s : St W L) :
  let m := backup_repository backup_folder repo in
  exists b dest res,
    result_of m s = inr b /\
    locals (state_after m s) = locals s /\
    filter clone_attempt (events_of m s) = [EGitClone (clone_url repo) dest res] /\
    existsb listing_call (events_of m s) = false /\
    forallb commits_overwriting (events_of m s) = true /\
    existsb upload_ok (events_of m s) = b /\
    (b = true -> existsb clone_ok (events_of m s) = true /\
                 existsb archive_ok (events_of m s) = true) /\
    (existsb clone_ok (events_of m s) = false ->
       existsb archive_step (events_of m s) = false /\
       existsb folder_step (events_of m s) = false /\
       existsb upload_step (events_of m s) = false) /\
    (existsb archive_ok (events_of m s) = false ->
       existsb folder_step (events_of m s) = false /\
       existsb upload_step (events_of m s) = false) /\
    (existsb folder_raised (events_of m s) = true ->
       existsb upload_step (events_of m s) = false).
Proof.
  unfold backup_repository, write_archive, create_folder.
  unfold result_of, state_after, events_of, bind, try_except, finally,
    call, call_ok, log, ret, raise, ask.
  destruct (fs_mkdtemp (world s)) as [temp_dir w0]. simpl.
  run_call.
  { (* the clone raised *)
    destruct (exn_class_of e); simpl; do 3 eexists; repeat split;
      try reflexivity; try discriminate. }
  destruct (returncode a =? 0) eqn:Hrc; simpl.
  2:{ (* the clone exited non-zero *)
      rewrite Hrc. do 3 eexists; repeat split; try reflexivity; try discriminate. }
  destruct (archive_entries _ _) as [e | members]; simpl.
  { destruct (exn_class_of e); simpl; rewrite Hrc; do 3 eexists; repeat split;
      try reflexivity; try discriminate. }
  run_call.
  { (* the archive could not be written *)
    destruct (exn_class_of e); simpl; rewrite Hrc; do 3 eexists; repeat split;
      try reflexivity; try discriminate. }
  run_call.
  - (* files_create_folder_v2 raised *)
    destruct (exn_class_of e) as [ | [ | ] | | | | ] eqn:Hcls; simpl;
      rewrite ?Hcls; simpl; try run_upload; conclude.
  - run_upload; conclude.
Qed.


End Backup.

(** ** The full run *)

#[local] Arguments backup_repository : simpl never.
#[local] Arguments Z.add : simpl never.

Lemma clone_urls_app (t1 t2 : list event) :
  clone_urls (t1 ++ t2) = clone_urls t1 ++ clone_urls t2.
Proof. unfold clone_urls. apply flat_map_app. Qed.

Lemma clone_urls_filter (t : list event) :
  clone_urls t = clone_urls (filter clone_attempt t).
Proof.
  induction t as [| e t IH]; [reflexivity |].
  destruct e; simpl; auto. f_equal. exact IH.
Qed.

Lemma clone_urls_skip_messages (exclude_repos : list string) (repos : list Repository) :
  clone_urls (map (skip_message exclude_repos) repos) = [].
Proof.
  induction repos as [| r repos IH]; [reflexivity |].
  simpl. unfold skip_message at 1. destruct (py_in _ _); exact IH.
Qed.

Lemma listing_call_skip_messages (exclude_repos : list string) (repos : list Repository) :
  existsb listing_call (map (skip_message exclude_repos) repos) = false.
Proof.
  induction repos as [| r repos IH]; [reflexivity |].
  simpl. unfold skip_message at 1. destruct (py_in _ _); exact IH.
Qed.

(** Run [backup_repository] by what [backup_repository_run] says of it. *)
Ltac run_backup :=
  match goal with
  | |- context [backup_repository ?bf ?repo ?st] =>
      let b := fresh "b" in let r := fresh "r" in let bt := fresh "bt" in
      let w' := fresh "w" in let l' := fresh "l" in
      let dest := fresh "dest" in let res := fresh "res" in
      destruct (backup_repository_run bf repo st)
        as (b & dest & res & Hr & Hl & Hclone & Hlist & _);
      unfold result_of, state_after, events_of in Hr, Hl, Hclone, Hlist;
      destruct (backup_repository bf repo st) as [[r [w' l']] bt];
      simpl in Hr, Hl, Hclone, Hlist; subst r l'
  end.

Section FullRun.
Context {W : Type} `{Collaborators W}.
Variable backup_folder : string.

Lemma filter_loop_run (exclude_repos : list string) (include_private : bool) :
  forall (repos filtered_repos : list Repository) (s : St W Full.results),
    let m := filter_loop exclude_repos include_private repos filtered_repos in
    result_of m s =
      inr (filtered_repos ++
           filter (fun r => negb (skipped exclude_repos include_private r)) repos) /\
    world (state_after m s) = world s /\
    locals (state_after m s) =
      Full.mk (Full.total_repos (locals s)) (Full.successful_backups (locals s))
              (Full.failed_backups (locals s))
              (Full.skipped_repos (locals s) +
               Z.of_nat (length (filter (skipped exclude_repos include_private) repos)))
              (Full.backup_details (locals s)) (Full.error (locals s)) /\
    events_of m s =
      map (skip_message exclude_repos)
          (filter (skipped exclude_repos include_private) repos).
Proof.
  induction repos as [| repo rest IH]; intros acc s.
  - unfold_monad; simpl. rewrite app_nil_r, Z.add_0_r. destruct s as [w []]; auto.
  - assert (Hsk : skipped exclude_repos include_private repo =
                  py_in (name repo) exclude_repos
                  || (negb include_private && private repo)) by reflexivity.
    cbn [filter_loop filter]. unfold skip_message.
    destruct (py_in (name repo) exclude_repos) eqn:Hex;
      [| destruct (negb include_private && private repo) eqn:Hpriv];
      simpl in Hsk; rewrite Hsk; cbn [negb].
    + specialize (IH acc (mkSt (world s) (Full.incr_skipped (locals s)))).
      unfold_monad; simpl in *.
      destruct (filter_loop _ _ rest acc _) as [[r s'] t]. simpl in *.
      destruct IH as (Hr & Hw & Hl & Ht). subst. rewrite Hl, Hex.
      repeat split; auto. f_equal. lia.
    + specialize (IH acc (mkSt (world s) (Full.incr_skipped (locals s)))).
      unfold_monad; simpl in *.
      destruct (filter_loop _ _ rest acc _) as [[r s'] t]. simpl in *.
      destruct IH as (Hr & Hw & Hl & Ht). subst. rewrite Hl, Hex.
      repeat split; auto. f_equal. lia.
    + specialize (IH (acc ++ [repo]) s). cbv zeta in IH.
      destruct IH as (Hr & Hw & Hl & Ht).
      rewrite <- app_assoc in Hr. auto.
Qed.

Lemma backup_and_record_run (repo : Repository) (s : St W Full.results) :
  let m := backup_and_record backup_folder repo in
  exists b d,
    result_of (backup_repository backup_folder repo) s = inr b /\
    result_of m s = inr tt /\
    locals (state_after m s) =
      (if b then Full.incr_successful else Full.incr_failed)
        (Full.append_detail d (locals s)) /\
    bd_repo_name d = name repo /\ bd_success d = b /\
    events_of m s =
      ELog INFO (fmt ["Starting backup for repository: "; name repo])
      :: events_of (backup_repository backup_folder repo) s.
Proof.
  unfold backup_and_record. unfold_monad. simpl.
  replace (mkSt (world s) (locals s)) with s by (destruct s; reflexivity).
  run_backup. destruct b; simpl; rewrite ?app_nil_r; do 2 eexists; repeat split; reflexivity.
Qed.

Lemma backup_loop_run :
  forall (repos : list Repository) (s : St W Full.results),
    let m := for_each repos (backup_and_record backup_folder) in
    let r := locals s in
    let r' := locals (state_after m s) in
    exists ds,
      result_of m s = inr tt /\
      Full.total_repos r' = Full.total_repos r /\
      Full.skipped_repos r' = Full.skipped_repos r /\
      Full.error r' = Full.error r /\
      Full.backup_details r' = Full.backup_details r ++ ds /\
      map bd_repo_name ds = map name repos /\
      Full.successful_backups r' =
        Full.successful_backups r + Z.of_nat (length (filter bd_success ds)) /\
      Full.failed_backups r' =
        Full.failed_backups r +
        Z.of_nat (length (filter (fun d => negb (bd_success d)) ds)) /\
      clone_urls (events_of m s) = map clone_url repos /\
      existsb listing_call (events_of m s) = false.
Proof.
  induction repos as [| repo rest IH]; intros s; cbv zeta.
  - exists []. unfold_monad; simpl. rewrite app_nil_r, !Z.add_0_r. repeat split.
  - cbn [for_each]. unfold bind, result_of, state_after, events_of.
    destruct (backup_and_record_run repo s) as (b & d & Hb & Hr & Hl & Hn & Hs & Ht).
    destruct (backup_repository_run backup_folder repo s)
      as (b' & dest & res & Hb' & _ & Hclone & Hlist & _).
    unfold result_of, state_after, events_of in *.
    destruct (backup_and_record backup_folder repo s) as [[r1 s1] t1].
    simpl in Hr, Hl, Ht. subst r1.
    specialize (IH s1). cbv zeta in IH. destruct IH as (ds & IH).
    unfold result_of, state_after, events_of in IH.
    destruct (for_each rest (backup_and_record backup_folder) s1) as [[r2 s2] t2].
    simpl in IH. destruct IH as (I1 & I2 & I3 & I4 & I5 & I6 & I7 & I8 & I9 & I10).
    destruct (backup_repository backup_folder repo s) as [[r0 s0] t0].
    simpl in Hb, Hb', Hclone, Hlist, Ht. subst t1 r2.
    exists (d :: ds). cbn [fst snd]. rewrite I2, I3, I4, I5, I7, I8, Hl.
    repeat split.
    + destruct b; reflexivity.
    + destruct b; reflexivity.
    + destruct b; reflexivity.
    + destruct b; simpl; rewrite <- app_assoc; reflexivity.
    + simpl. rewrite Hn, I6. reflexivity.
    + simpl. rewrite Hs. destruct b; simpl; lia.
    + simpl. rewrite Hs. destruct b; simpl; lia.
    + rewrite clone_urls_app, I9. simpl. f_equal.
      change (clone_urls (ELog ?l ?m :: ?t)) with (clone_urls t).
      rewrite clone_urls_filter, Hclone. reflexivity.
    + rewrite existsb_app, I10. simpl. rewrite Hlist. reflexivity.
Qed.

(** A run of [backup_all_repositories], by the answer to its listing call. *)
Lemma backup_all_repositories_run {L} (username : option string)
    (exclude_repos : option (list string)) (include_private : bool) (s : St W L) :
  let m := backup_all_repositories backup_folder username exclude_repos include_private in
  let excluded := match exclude_repos with Some l => l | None => [] end in
  match fst (gh_get_user_repositories username (world s)) with
  | inl e =>
      result_of m s = inr (Full.set_error (str e) Full.initial) /\
      events_of m s =
        [EListRepos username (inl e);
         ELog ERROR (fmt ["Error during backup process: "; str e])]
  | inr repos =>
      let out := filter (skipped excluded include_private) repos in
      let kept := filter (fun r => negb (skipped excluded include_private r)) repos in
      exists res t,
        result_of m s = inr res /\
        Full.total_repos res = Z.of_nat (length repos) /\
        Full.skipped_repos res = Z.of_nat (length out) /\
        Full.error res = None /\
        map bd_repo_name (Full.backup_details res) = map name kept /\
        Full.successful_backups res =
          Z.of_nat (length (filter bd_success (Full.backup_details res))) /\
        Full.failed_backups res =
          Z.of_nat (length (filter (fun d => negb (bd_success d))
                                   (Full.backup_details res))) /\
        events_of m s =
          EListRepos username (inr repos) :: map (skip_message excluded) out ++ t /\
        clone_urls t = map clone_url kept /\
        existsb listing_call t = false
  end.
Proof.
  cbv zeta. unfold backup_all_repositories, get_user_repositories.
  unfold in_frame, try_except, bind, call, result_of, state_after, events_of.
  cbn [world locals fst snd].
  destruct (gh_get_user_repositories username (world s)) as [[e | repos] w1];
    cbn [fst snd].
  - unfold_monad. simpl. auto.
  - set (excluded := match exclude_repos with Some l => l | None => [] end).
    unfold modify_locals. cbn [world locals fst snd].
    match goal with
    | |- context [filter_loop ?ex ?ip ?rs ?acc ?st] =>
        destruct (filter_loop_run ex ip rs acc st) as (F1 & F2 & F3 & F4);
        unfold result_of, state_after, events_of in F1, F2, F3, F4;
        destruct (filter_loop ex ip rs acc st) as [[fr fs] ft];
        simpl in F1, F2, F3, F4; subst fr ft
    end.
    match goal with
    | |- context [for_each ?rs ?body ?st] =>
        destruct (backup_loop_run rs st) as (ds & B);
        unfold result_of, state_after, events_of in B; cbv zeta in B;
        destruct (for_each rs body st) as [[br bs] bt];
        simpl in B; destruct B as (B1 & B2 & B3 & B4 & B5 & B6 & B7 & B8 & B9 & B10);
        subst br
    end.
    unfold_monad. simpl.
    rewrite F3 in *. simpl in *.
    eexists. eexists. split; [reflexivity |].
    rewrite B5. repeat split; auto; try lia.
    + rewrite app_nil_r. reflexivity.
    + rewrite clone_urls_app. simpl. rewrite app_nil_r. exact B9.
    + rewrite existsb_app, B10. reflexivity.
Qed.

End FullRun.

(** ** The targeted run *)





Lemma subseq_app {A} (a b c d : list A) :
  subseq a b -> subseq c d -> subseq (a ++ c) (b ++ d).
Proof.
  induction 1; simpl; intros Hcd;
    [assumption | apply subseq_skip | apply subseq_take]; auto.
Qed.

Lemma subseq_refl {A} (l : list A) : subseq l l.
Proof. induction l; constructor; assumption. Qed.

Section TargetedRun.
Context {W : Type} `{Collaborators W}.
Variable backup_folder : string.

Lemma backup_resolved_run (repo : Repository) (s : St W Targeted.results) :
  let m := backup_resolved backup_folder repo in
  exists b d,
    result_of (backup_repository backup_folder repo) s = inr b /\
    result_of m s = inr tt /\
    locals (state_after m s) =
      (if b then Targeted.incr_successful else Targeted.incr_failed)
        (Targeted.append_detail d (locals s)) /\
    bd_repo_name d = name repo /\ bd_success d = b /\
    events_of m s = events_of (backup_repository backup_folder repo) s.
Proof.
  unfold backup_resolved. unfold_monad. simpl.
  run_backup. destruct b; simpl; rewrite ?app_nil_r; do 2 eexists; repeat split; reflexivity.
Qed.

(** One turn of the loop of [backup_specific_repositories], case by case. *)
Lemma backup_requested_run (username : option string) (repo_name : string)
    (s : St W Targeted.results) :
  let m := backup_requested backup_folder username repo_name in
  let resolved (first : event) :=
    exists (b : bool) (d : BackupDetail) (t : list event),
      locals (state_after m s) =
        (if b then Targeted.incr_successful else Targeted.incr_failed)
          (Targeted.append_detail d (locals s)) /\
      bd_success d = b /\
      events_of m s = first :: t /\
      existsb listing_call t = false /\
      (forall r, first = EListRepos None (inr r) -> bd_repo_name d = repo_name) /\
      (forall r, first = EGetRepo (match truthy username with Some o => o | None => "" end)
                                  repo_name (inr r) -> bd_repo_name d = name r) in
  result_of m s = inr tt /\
  match truthy username with
  | Some owner =>
      match fst (gh_get_repository owner repo_name (world s)) with
      | inl e =>
          (exists ts, locals (state_after m s) = failed_request repo_name e ts (locals s)) /\
          events_of m s = [EGetRepo owner repo_name (inl e); request_error_line repo_name e]
      | inr repo => resolved (EGetRepo owner repo_name (inr repo))
      end
  | None =>
      match fst (gh_get_user_repositories None (world s)) with
      | inl e =>
          (exists ts, locals (state_after m s) = failed_request repo_name e ts (locals s)) /\
          events_of m s = [EListRepos None (inl e); request_error_line repo_name e]
      | inr all_repos =>
          match find (fun r => String.eqb (name r) repo_name) all_repos with
          | None =>
              locals (state_after m s) = Targeted.incr_not_found (locals s) /\
              events_of m s =
                [EListRepos None (inr all_repos);
                 ELog ERROR (fmt ["Repository not found: "; repo_name])]
          | Some _ => resolved (EListRepos None (inr all_repos))
          end
      end
  end.
Proof.
  cbv zeta. unfold result_of, state_after, events_of.
  destruct (backup_requested backup_folder username repo_name s) as [[r s'] t] eqn:Hrun.
  cbn [fst snd].
  unfold backup_requested, get_repository, get_user_repositories,
    try_except, bind at 1 2, call in Hrun.
  destruct (truthy username) as [owner |].
  - destruct (gh_get_repository owner repo_name (world s)) as [[e | repo] w1];
      cbn [fst snd world locals] in *.
    + unfold_monad. simpl in Hrun. injection Hrun as Er Es Et; subst r s' t.
      split; [reflexivity |]. split; [eexists |]; reflexivity.
    + destruct (backup_resolved_run repo (mkSt w1 (locals s)))
        as (b & d & Hb & Hr & Hl & Hn & Hs & Ht).
      destruct (backup_repository_run backup_folder repo (mkSt w1 (locals s)))
        as (b' & dest & res & _ & _ & _ & Hlist & _).
      unfold result_of, state_after, events_of in *.
      destruct (backup_resolved backup_folder repo _) as [[r1 s1] t1].
      simpl in Hr, Hl, Ht, Hrun. subst r1 t1. injection Hrun as Er Es Et; subst r s' t.
      split; [reflexivity |]. exists b, d. eexists. repeat split; eauto.
      * intros r Heq. discriminate.
      * intros r Heq. inversion Heq; subst. exact Hn.
  - destruct (gh_get_user_repositories None (world s)) as [[e | all_repos] w1];
      cbn [fst snd world locals] in *.
    + unfold_monad. simpl in Hrun. injection Hrun as Er Es Et; subst r s' t.
      split; [reflexivity |]. split; [eexists |]; reflexivity.
    + destruct (find _ all_repos) as [user_repo |] eqn:Hfind.
      * destruct (backup_resolved_run user_repo (mkSt w1 (locals s)))
          as (b & d & Hb & Hr & Hl & Hn & Hs & Ht).
        destruct (backup_repository_run backup_folder user_repo (mkSt w1 (locals s)))
          as (b' & dest & res & _ & _ & _ & Hlist & _).
        unfold result_of, state_after, events_of in *.
        destruct (backup_resolved backup_folder user_repo _) as [[r1 s1] t1].
        simpl in Hr, Hl, Ht, Hrun. subst r1 t1. injection Hrun as Er Es Et; subst r s' t.
        split; [reflexivity |]. exists b, d. eexists. repeat split; eauto.
        -- intros r Heq. apply find_some in Hfind. destruct Hfind as [_ Heqb].
           apply String.eqb_eq in Heqb. congruence.
        -- intros r Heq. discriminate.
      * unfold_monad. simpl in Hrun. injection Hrun as Er Es Et; subst r s' t. auto.
Qed.

(** A lookup by account and name that raises is counted as a failure. *)
Lemma lookup_error_is_counted_failed (owner repo_name : string) (e : exn)
    (s : St W Targeted.results) :
  owner <> "" ->
  fst (gh_get_repository owner repo_name (world s)) = inl e ->
  let m := backup_requested backup_folder (Some owner) repo_name in
  let r' := locals (state_after m s) in
  result_of m s = inr tt /\
  Targeted.failed_backups r' = Targeted.failed_backups (locals s) + 1 /\
  Targeted.not_found_repos r' = Targeted.not_found_repos (locals s) /\
  exists ts,
    Targeted.backup_details r' =
      Targeted.backup_details (locals s) ++
      [mkDetail repo_name None false ts None None (Some (str e))].
Proof.
  intros Howner Hget. cbv zeta.
  destruct (backup_requested_run (Some owner) repo_name s) as [Hres Hcase].
  cbv zeta in Hcase.
  assert (Htruthy : truthy (Some owner) = Some owner)
    by (destruct owner; [contradiction | reflexivity]).
  rewrite Htruthy, Hget in Hcase. destruct Hcase as [[ts Hl] _].
  rewrite Hl. repeat split; try assumption. exists ts. reflexivity.
Qed.

(** One turn of the loop, as it moves the counters. *)
Lemma backup_requested_step (username : option string) (repo_name : string)
    (s : St W Targeted.results) :
  let m := backup_requested backup_folder username repo_name in
  let r := locals s in
  let r' := locals (state_after m s) in
  exists ds,
    result_of m s = inr tt /\
    Targeted.requested_repos r' = Targeted.requested_repos r /\
    Targeted.backup_details r' = Targeted.backup_details r ++ ds /\
    Targeted.successful_backups r' =
      Targeted.successful_backups r + Z.of_nat (length (filter bd_success ds)) /\
    Targeted.failed_backups r' =
      Targeted.failed_backups r +
      Z.of_nat (length (filter (fun d => negb (bd_success d)) ds)) /\
    Targeted.not_found_repos r' + Z.of_nat (length ds) =
      Targeted.not_found_repos r + 1 /\
    (truthy username = None ->
     length (filter listing_call (events_of m s)) = 1%nat) /\
    (truthy username = None \/ answers_by_name ->
     subseq (map bd_repo_name ds) [repo_name]).
Proof.
  cbv zeta.
  destruct (backup_requested_run username repo_name s) as [Hres Hcase].
  cbv zeta in Hcase.
  assert (Hresolved :
    forall first : event,
      (exists (b : bool) (d : BackupDetail) (t : list event),
         locals (state_after (backup_requested backup_folder username repo_name) s) =
           (if b then Targeted.incr_successful else Targeted.incr_failed)
             (Targeted.append_detail d (locals s)) /\
         bd_success d = b /\
         events_of (backup_requested backup_folder username repo_name) s = first :: t /\
         existsb listing_call t = false /\
         (forall r, first = EListRepos None (inr r) -> bd_repo_name d = repo_name) /\
         (forall r, first = EGetRepo (match truthy username with Some o => o | None => "" end)
                                     repo_name (inr r) -> bd_repo_name d = name r)) ->
      exists d,
        locals (state_after (backup_requested backup_folder username repo_name) s) =
          (if bd_success d then Targeted.incr_successful else Targeted.incr_failed)
            (Targeted.append_detail d (locals s)) /\
        length (filter listing_call
                  (events_of (backup_requested backup_folder username repo_name) s)) =
          (if listing_call first then 1%nat else 0%nat) /\
        (forall r, first = EListRepos None (inr r) -> bd_repo_name d = repo_name) /\
        (forall r, first = EGetRepo (match truthy username with Some o => o | None => "" end)
                                    repo_name (inr r) -> bd_repo_name d = name r)).
  { intros first (b & d & t & Hl & Hs & Ht & Hlist & Hn1 & Hn2).
    exists d. rewrite Hs, Hl, Ht. repeat split; auto.
    simpl. rewrite (filter_none _ _ Hlist). destruct (listing_call first); reflexivity. }
  destruct (truthy username) as [owner |] eqn:Htruthy.
  - destruct (fst (gh_get_repository owner repo_name (world s))) as [e | repo] eqn:Hget.
    + destruct Hcase as [[ts Hl] Ht].
      exists [mkDetail repo_name None false ts None None (Some (str e))].
      rewrite Hl, Ht.
      split; [exact Hres |]. unfold failed_request. simpl.
      repeat split; try reflexivity; try lia; try discriminate.
      intros _. apply subseq_refl.
    + destruct (Hresolved _ Hcase) as (d & Hl & Hcount & Hn1 & Hn2).
      exists [d]. rewrite Hl. split; [exact Hres |].
      destruct (bd_success d) eqn:Hs; simpl; rewrite Hs; simpl;
        repeat split; try reflexivity; try lia; try discriminate;
        intros [Hno | Hans]; try discriminate;
        rewrite (Hn2 repo eq_refl), (Hans owner repo_name (world s) repo Hget);
        apply subseq_refl.
  - destruct (fst (gh_get_user_repositories None (world s))) as [e | all_repos].
    + destruct Hcase as [[ts Hl] Ht].
      exists [mkDetail repo_name None false ts None None (Some (str e))].
      rewrite Hl, Ht.
      split; [exact Hres |]. unfold failed_request. simpl.
      repeat split; try reflexivity; try lia. intros _. apply subseq_refl.
    + destruct (find _ all_repos) as [user_repo |].
      * destruct (Hresolved _ Hcase) as (d & Hl & Hcount & Hn1 & Hn2).
        exists [d]. rewrite Hl. split; [exact Hres |].
        destruct (bd_success d) eqn:Hs; simpl; rewrite Hs; simpl;
          (repeat split; try reflexivity; try lia;
           [intros _; exact Hcount
           | intros _; rewrite (Hn1 all_repos eq_refl); apply subseq_refl]).
      * destruct Hcase as [Hl Ht]. exists []. rewrite Hl, Ht.
        split; [exact Hres |]. simpl.
        repeat split; try reflexivity; try lia; try (rewrite app_nil_r; reflexivity).
        intros _. apply subseq_skip, subseq_nil.
Qed.

Lemma targeted_loop_run (username : option string) :
  forall (repo_names : list string) (s : St W Targeted.results),
    let m := for_each repo_names (backup_requested backup_folder username) in
    let r := locals s in
    let r' := locals (state_after m s) in
    exists ds,
      result_of m s = inr tt /\
      Targeted.requested_repos r' = Targeted.requested_repos r /\
      Targeted.backup_details r' = Targeted.backup_details r ++ ds /\
      Targeted.successful_backups r' =
        Targeted.successful_backups r + Z.of_nat (length (filter bd_success ds)) /\
      Targeted.failed_backups r' =
        Targeted.failed_backups r +
        Z.of_nat (length (filter (fun d => negb (bd_success d)) ds)) /\
      Targeted.not_found_repos r' + Z.of_nat (length ds) =
        Targeted.not_found_repos r + Z.of_nat (length repo_names) /\
      (truthy username = None ->
       length (filter listing_call (events_of m s)) = length repo_names) /\
      (truthy username = None \/ answers_by_name ->
       subseq (map bd_repo_name ds) repo_names).
Proof.
  induction repo_names as [| repo_name rest IH]; intros s; cbv zeta.
  - exists []. unfold_monad; simpl. rewrite app_nil_r, !Z.add_0_r.
    repeat split; auto. intros _. constructor.
  - cbn [for_each]. unfold bind, result_of, state_after, events_of.
    destruct (backup_requested_step username repo_name s)
      as (ds1 & S1 & S2 & S3 & S4 & S5 & S6 & S7 & S8).
    unfold result_of, state_after, events_of in *.
    destruct (backup_requested backup_folder username repo_name s) as [[r1 s1] t1].
    cbn [fst snd] in *. subst r1.
    destruct (IH s1) as (ds2 & I1 & I2 & I3 & I4 & I5 & I6 & I7 & I8).
    unfold result_of, state_after, events_of in *.
    destruct (for_each rest _ s1) as [[r2 s2] t2]. cbn [fst snd] in *. subst r2.
    exists (ds1 ++ ds2).
    rewrite I2, I3, I4, I5, S2, S3, S4, S5, ?filter_app, ?length_app, <- ?app_assoc.
    repeat split; try lia.
    + cbn [length]. lia.
    + intros Hno. cbn [length]. rewrite (S7 Hno), (I7 Hno). reflexivity.
    + intros Hname. rewrite map_app.
      apply (subseq_app _ [repo_name] _ rest); auto.
Qed.

End TargetedRun.

(** ** The properties of the specification *)

Lemma filter_split_length {A} (f : A -> bool) (l : list A) :
  (length (filter f l) + length (filter (fun x => negb (f x)) l))%nat = length l.
Proof.
  induction l as [| x l IH]; simpl; [reflexivity |].
  destruct (f x); simpl; lia.
Qed.

Lemma clone_ok_among_attempts (t : list event) :
  existsb clone_ok t = existsb clone_ok (filter clone_attempt t).
Proof.
  induction t as [| e t IH]; [reflexivity |].
  destruct e; simpl; auto. rewrite IH. reflexivity.
Qed.


Section Claims.
Context {W : Type} `{Collaborators W}.
Variable backup_folder : string.




(** C4.  When the clone of a repository exits non-zero or times out,
    [backup_repository] returns [False] with no archive, folder or upload
    step attempted, and the outcome recorded for the repository, in a full
    run as in a targeted one, has [success = False]. *)
Theorem clone_failure_yields_false (repo : Repository) (url dest : string)
    (res : exn + CompletedProcess) :
  clone_failed res = true ->
  (forall L (s : St W L),
     let t := events_of (backup_repository backup_folder repo) s in
     In (EGitClone url dest res) t ->
     result_of (backup_repository backup_folder repo) s = inr false /\
     existsb archive_step t = false /\ existsb folder_step t = false /\
     existsb upload_step t = false) /\
  (forall s : St W Full.results,
     In (EGitClone url dest res) (events_of (backup_and_record backup_folder repo) s) ->
     exists d,
       locals (state_after (backup_and_record backup_folder repo) s) =
         Full.incr_failed (Full.append_detail d (locals s)) /\
       bd_repo_name d = name repo /\ bd_success d = false) /\
  (forall s : St W Targeted.results,
     In (EGitClone url dest res) (events_of (backup_resolved backup_folder repo) s) ->
     exists d,
       locals (state_after (backup_resolved backup_folder repo) s) =
         Targeted.incr_failed (Targeted.append_detail d (locals s)) /\
       bd_repo_name d = name repo /\ bd_success d = false).
Proof.
  intros Hfailed.
  assert (Hcore : forall L (s : St W L),
    In (EGitClone url dest res) (events_of (backup_repository backup_folder repo) s) ->
    result_of (backup_repository backup_folder repo) s = inr false /\
    existsb archive_step (events_of (backup_repository backup_folder repo) s) = false /\
    existsb folder_step (events_of (backup_repository backup_folder repo) s) = false /\
    existsb upload_step (events_of (backup_repository backup_folder repo) s) = false).
  { intros L s Hin.
    destruct (backup_repository_run backup_folder repo s)
      as (b & dest' & res' & Hr & _ & Hone & _ & _ & _ & Htrue & Hclone & _).
    assert (Hno : existsb clone_ok (events_of (backup_repository backup_folder repo) s) = false).
    { rewrite clone_ok_among_attempts, Hone.
      assert (Hin' : In (EGitClone url dest res)
                        (filter clone_attempt (events_of (backup_repository backup_folder repo) s)))
        by (apply filter_In; split; [exact Hin | reflexivity]).
      rewrite Hone in Hin'. destruct Hin' as [Heq | []].
      inversion Heq; subst. simpl.
      destruct res as [e | done]; simpl in *; [reflexivity |].
      apply negb_true_iff in Hfailed. rewrite Hfailed. reflexivity. }
    split; [| apply Hclone; exact Hno].
    rewrite Hr. destruct b; [| reflexivity].
    destruct (Htrue eq_refl). congruence. }
  split; [exact Hcore | split].
  - intros s Hin.
    destruct (backup_and_record_run backup_folder repo s) as (b & d & Hb & _ & Hl & Hn & Hs & Ht).
    rewrite Ht in Hin. destruct Hin as [Heq | Hin]; [discriminate |].
    destruct (Hcore _ s Hin) as [Hr _]. rewrite Hr in Hb. assert (Hf : b = false) by congruence.
    exists d. rewrite Hl, Hf. repeat split; congruence.
  - intros s Hin.
    destruct (backup_resolved_run backup_folder repo s) as (b & d & Hb & _ & Hl & Hn & Hs & Ht).
    rewrite Ht in Hin.
    destruct (Hcore _ s Hin) as [Hr _]. rewrite Hr in Hb. assert (Hf : b = false) by congruence.
    exists d. rewrite Hl, Hf. repeat split; congruence.
Qed.

(** C6, as amended.  In a targeted backup with no account given, the
    listing is fetched once for every requested name, and each name is looked
    up in the listing fetched for it; a name that listing does not hold is
    counted in [not_found_repos], nothing is recorded or raised for it, and
    no backup is attempted. *)
Theorem targeted_listing_per_name (username : option string) :
  truthy username = None ->
  (forall L (repo_names : list string) (s : St W L),
     length (filter listing_call
               (events_of (backup_specific_repositories backup_folder repo_names username) s))
     = length repo_names) /\
  (forall (repo_name : string) (s : St W Targeted.results) (all_repos : list Repository),
     fst (gh_get_user_repositories None (world s)) = inr all_repos ->
     find (fun r => String.eqb (name r) repo_name) all_repos = None ->
     let m := backup_requested backup_folder username repo_name in
     result_of m s = inr tt /\
     locals (state_after m s) = Targeted.incr_not_found (locals s) /\
     events_of m s =
       [EListRepos None (inr all_repos);
        ELog ERROR (fmt ["Repository not found: "; repo_name])]).
Proof.
  intros Hno. split.
  - intros L repo_names s.
    unfold backup_specific_repositories, in_frame, bind, get_locals, events_of.
    destruct (targeted_loop_run backup_folder username repo_names
                (mkSt (world s) (Targeted.initial repo_names)))
      as (ds & Hr & _ & _ & _ & _ & _ & Hcount & _).
    specialize (Hcount Hno).
    unfold result_of, events_of in Hr, Hcount.
    destruct (for_each repo_names _ _) as [[r s1] t]. simpl in *. subst r.
    simpl. rewrite app_nil_r. exact Hcount.
  - intros repo_name s all_repos Hlist Hfind. cbv zeta.
    destruct (backup_requested_run backup_folder username repo_name s) as [Hres Hcase].
    cbv zeta in Hcase. rewrite Hno, Hlist, Hfind in Hcase.
    destruct Hcase as [Hl Ht]. auto.
Qed.



(** C9.  When the listing call of a full run raises, the run stops there:
    nothing but the listing call and the error line happens (no repository is
    cloned), and the summary returned carries the error text, with every
    counter at zero and no outcome. *)
Theorem listing_error_aborts_full_run {L} (username : option string)
    (exclude_repos : option (list string)) (include_private : bool) (s : St W L)
    (e : exn) :
  fst (gh_get_user_repositories username (world s)) = inl e ->
  let m := backup_all_repositories backup_folder username exclude_repos include_private in
  exists res,
    result_of m s = inr res /\
    Full.error res = Some (str e) /\
    Full.successful_backups res = 0 /\
    Full.failed_backups res = 0 /\
    Full.backup_details res = [] /\
    events_of m s =
      [EListRepos username (inl e);
       ELog ERROR (fmt ["Error during backup process: "; str e])] /\
    clone_urls (events_of m s) = [].
Proof.
  intros Hlisting. cbv zeta.
  pose proof (backup_all_repositories_run backup_folder username exclude_repos
                include_private s) as Hrun.
  cbv zeta in Hrun. rewrite Hlisting in Hrun. destruct Hrun as [Hr Ht].
  eexists. split; [exact Hr |]. rewrite Ht. repeat split.
Qed.

(** C10.  [upload_file] overwrites unless told otherwise, and
    [backup_repository] does not tell it: every call by which a run of
    [backup_repository] commits a file, whether the single upload or the end
    of an upload session, is made in overwrite mode. *)
Theorem uploads_commit_in_overwrite_mode {L} (repo : Repository) (s : St W L) :
  upload_file_overwrite_default = true /\
  write_mode upload_file_overwrite_default = WriteMode_overwrite /\
  forallb commits_overwriting (events_of (backup_repository backup_folder repo) s) = true.
Proof.
  split; [reflexivity | split; [reflexivity |]].
  destruct (backup_repository_run backup_folder repo s)
    as (b & dest & res & _ & _ & _ & _ & Hmode & _).
  exact Hmode.
Qed.

End Claims.

(** ** The properties on concrete runs *)



(** C4 on a clone that exits with status 128. *)
Lemma clone_failure_yields_false_witness :
  let w := Scenario.with_clone (inr (mkCompleted 128 "fatal: repository not found"))
                               Scenario.fine in
  result_of (backup_repository "/Projects" Scenario.repo_a) (Scenario.start w) = inr false.
Proof.
  cbv zeta.
  apply (proj1 (@clone_failure_yields_false Scenario.world Scenario.collaborators
                  "/Projects" Scenario.repo_a
                  "https://github.com/octocat/a.git" "/tmp/tmpk3v9/a"
                  (inr (mkCompleted 128 "fatal: repository not found")) eq_refl)
               unit).
  vm_compute. right. right. left. reflexivity.
Defined.

(** C5: the code at a request, with an account, for a repository the
    directory does not hold.  The lookup raises, and the name is counted in
    [failed_backups] and recorded with the error; [not_found_repos] stays at
    zero.  The run goes on to the next name. *)
Lemma missing_repository_is_counted_failed :
  result_of (backup_specific_repositories "/Projects" ["missing"; "a"] (Some "octocat"))
            (Scenario.start Scenario.fine)
  = inr (Targeted.mk 2 1 1 0
           [mkDetail "missing" None false "2024-02-29T12:00:00" None None
                     (Some "404 Client Error: Not Found");
            mkDetail "a" (Some "octocat/a") true "2024-02-29T12:00:00" None None None]).
Proof. vm_compute. reflexivity. Qed.

(** C6, as stated, fails: two names requested with no account, two listing
    calls. *)
Lemma listing_is_fetched_for_every_name :
  let t := events_of (backup_specific_repositories "/Projects" ["a"; "zzz"] None)
                     (Scenario.start Scenario.fine) in
  length (filter listing_call t) = 2%nat /\ length (filter listing_call t) <> 1%nat.
Proof. vm_compute. split; [reflexivity | discriminate]. Qed.

(** C6, as amended, on the same run. *)
Lemma targeted_listing_per_name_witness :
  length (filter listing_call
            (events_of (backup_specific_repositories "/Projects" ["a"; "zzz"] None)
                       (Scenario.start Scenario.fine)))
  = length ["a"; "zzz"].
Proof.
  apply (proj1 (@targeted_listing_per_name Scenario.world Scenario.collaborators
                  "/Projects" None eq_refl)).
Defined.



(** C9 on a listing call answered with a server error. *)
Lemma listing_error_aborts_full_run_witness :
  let w := Scenario.with_listing_error (mkExn (HTTPError 503) "503 Server Error")
                                       Scenario.fine in
  exists res,
    result_of (backup_all_repositories "/Projects" None None true) (Scenario.start w)
      = inr res /\
    Full.error res = Some "503 Server Error" /\
    Full.successful_backups res = 0 /\
    Full.backup_details res = [].
Proof.
  cbv zeta.
  destruct (@listing_error_aborts_full_run Scenario.world Scenario.collaborators
              "/Projects" unit None None true
              (Scenario.start (Scenario.with_listing_error
                                 (mkExn (HTTPError 503) "503 Server Error") Scenario.fine))
              (mkExn (HTTPError 503) "503 Server Error") eq_refl)
    as (res & Hr & He & Hs & _ & Hd & _).
  exists res. repeat split; assumption.
Defined.

(** C10 on a destination that already holds a file: the run succeeds and
    the file is replaced. *)
Example existing_archive_is_replaced :
  let path := "/Projects/a/a_20240229_120000.zip" in
  let w := Scenario.with_stored [(path, 1)] Scenario.fine in
  let m := backup_repository "/Projects" Scenario.repo_a in
  result_of m (Scenario.start w) = inr true /\
  Scenario.stored (world (state_after m (Scenario.start w))) = [(path, 2048)].
Proof. vm_compute. split; reflexivity. Qed.

(** In [add] mode the same upload is refused. *)
Example add_mode_is_refused :
  let path := "/Projects/a/a_20240229_120000.zip" in
  let w := Scenario.with_stored [(path, 1)] Scenario.fine in
  result_of (upload_file "/tmp/tmpk3v9/a_20240229_120000.zip" path false)
            (Scenario.start w) = inr false.
Proof. vm_compute. reflexivity. Qed.

(** An archive above the limit goes through an upload session, whose last
    call commits it, in overwrite mode. *)
Example large_archive_is_committed :
  let w := Scenario.with_zip_size (160 * 1024 * 1024 + 5) Scenario.fine in
  let m := backup_repository "/Projects" Scenario.repo_a in
  result_of m (Scenario.start w) = inr true /\
  Scenario.stored (world (state_after m (Scenario.start w))) =
    [("/Projects/a/a_20240229_120000.zip", 160 * 1024 * 1024 + 5)] /\
  existsb (fun e => match e with
                    | ESessionFinish _ _ _ WriteMode_overwrite (inr _) => true
                    | _ => false
                    end) (events_of m (Scenario.start w)) = true.
Proof. vm_compute. repeat split. Qed.

(** The scenario of the specification: a public and a private repository,
    nothing excluded, private ones not included. *)
Example one_public_one_private :
  result_of (backup_all_repositories "/Projects" None (Some []) false)
            (Scenario.start Scenario.fine)
  = inr (Full.mk 2 1 0 1
           [mkDetail "a" (Some "octocat/a") true "2024-02-29T12:00:00"
                     (Some false) (Some 100) None]
           None).
Proof. vm_compute. reflexivity. Qed.

(** ** More of [dropbox_client] *)

Lemma session_chunks_app (t1 t2 : list event) :
  session_chunks (t1 ++ t2) = session_chunks t1 ++ session_chunks t2.
Proof.
  induction t1 as [| e t1 IH]; [reflexivity |].
  simpl. destruct (session_chunk e); simpl; rewrite IH; reflexivity.
Qed.

Section UploadMore.
Context {W : Type} `{Collaborators W} {L : Type}.

(** X1.  [upload_file] never raises: whatever goes wrong it returns [False],
    and it returns [True] exactly when the call that commits the file was
    accepted. *)
Theorem upload_file_reports_the_commit (local_path dropbox_path : string)
    (overwrite : bool) (s : St W L) :
  let m := upload_file local_path dropbox_path overwrite in
  exists b,
    result_of m s = inr b /\
    existsb upload_ok (events_of m s) = b /\
    locals (state_after m s) = locals s.
Proof.
  cbv zeta.
  destruct (upload_file_run local_path dropbox_path overwrite s)
    as (b & Hr & Hl & _ & _ & Hok).
  exists b. auto.
Qed.

(** X2.  A file of at most 150 MiB is sent by one call of [files_upload],
    in the mode the [overwrite] flag selects, and by nothing else; the result
    is whether that call was accepted. *)
Theorem small_file_is_one_upload_call (local_path dropbox_path : string)
    (overwrite : bool) (s : St W L) (file_size : Z) :
  fst (fs_open_size local_path (world s)) = inr file_size ->
  file_size <= 150 * 1024 * 1024 ->
  let m := upload_file local_path dropbox_path overwrite in
  exists res,
    filter sdk_call (events_of m s) =
      [EFilesUpload dropbox_path (if overwrite then WriteMode_overwrite else WriteMode_add)
                    res] /\
    result_of m s = inr (match res with inr _ => true | inl _ => false end).
Proof.
  intros Hopen Hsmall. cbv zeta.
  unfold upload_file. unfold_monad.
  destruct (fs_open_size local_path (world s)) as [r w]. simpl in Hopen. subst r. simpl.
  destruct (Z.leb_spec file_size SIMPLE_UPLOAD_LIMIT) as [_ | Hbig];
    [| unfold SIMPLE_UPLOAD_LIMIT in Hbig; lia].
  run_call.
  - exists (inl e). destruct (exn_class_of e); destruct overwrite; simpl; auto.
  - exists (inr a). destruct overwrite; simpl; auto.
Qed.

(** X3.  When the local file cannot be opened, nothing is sent to Dropbox
    and [upload_file] returns [False]. *)
Theorem unreadable_file_sends_nothing (local_path dropbox_path : string)
    (overwrite : bool) (s : St W L) (e : exn) :
  fst (fs_open_size local_path (world s)) = inl e ->
  let m := upload_file local_path dropbox_path overwrite in
  result_of m s = inr false /\
  filter sdk_call (events_of m s) = [] /\
  exists line, events_of m s = [EOpen local_path (inl e); ELog ERROR line] /\
    (exn_class_of e = FileNotFoundError ->
     line = fmt ["Local file not found: "; local_path]).
Proof.
  intros Hopen. cbv zeta.
  unfold upload_file. unfold_monad.
  destruct (fs_open_size local_path (world s)) as [r w]. simpl in Hopen. subst r. simpl.
  destruct (exn_class_of e); simpl; repeat split; eexists; split;
    try reflexivity; intros; try discriminate; reflexivity.
Qed.

Lemma upload_session_loop_chunks (sid path : string) (file_size : Z) (ow : bool) :
  forall (fuel : nat) (tell : Z) (s : St W L),
    let m := upload_session_loop fuel sid path file_size ow tell in
    exists stop,
      chunks_end tell (session_chunks (events_of m s)) = Some stop /\
      tell <= stop /\ stop <= Z.max tell file_size /\
      (tell < file_size -> file_size - tell <= Z.of_nat fuel * CHUNK_SIZE ->
       forall u, result_of m s = inr u -> stop = file_size) /\
      (length (filter commit_call (events_of m s)) <= 1)%nat /\
      (forall u, result_of m s = inr u ->
       file_size - tell <= Z.of_nat fuel * CHUNK_SIZE ->
       Z.of_nat (length (session_chunks (events_of m s))) =
       (Z.max 0 (file_size - tell) + CHUNK_SIZE - 1) / CHUNK_SIZE).
Proof.
  pose proof CHUNK_SIZE_pos as Hc.
  assert (Hchunk : CHUNK_SIZE = 4 * 1024 * 1024) by reflexivity.
  induction fuel as [| fuel IH]; intros tell s; cbv zeta.
  - simpl. unfold_monad; simpl. exists tell. repeat split; try lia.
    intros u _ Hfuel. replace (Z.max 0 (file_size - tell)) with 0 by lia.
    symmetry. apply Z.div_small. lia.
  - cbn [upload_session_loop].
    destruct (Z.ltb_spec tell file_size) as [Hlt | Hge].
    2:{ unfold_monad; simpl. exists tell. repeat split; try lia.
        intros u _ Hfuel. replace (Z.max 0 (file_size - tell)) with 0 by lia.
        symmetry. apply Z.div_small. lia. }
    destruct (Z.leb_spec (file_size - tell) CHUNK_SIZE) as [Hlast | Hmore].
    + rewrite Z.min_r by lia. unfold_monad. run_call.
      * exists tell. repeat split; try lia; intros; discriminate.
      * rewrite Z.eqb_refl. simpl.
        destruct (Z.ltb_spec 0 (file_size - tell)); [| lia].
        destruct (Z.leb_spec (file_size - tell) (4 * 1024 * 1024)); [| lia].
        simpl. exists file_size. repeat split; try lia.
        -- f_equal. lia.
        -- intros u _ _. replace (Z.max 0 (file_size - tell)) with (file_size - tell) by lia.
           cbn [length]. change (Z.of_nat 1) with 1.
           apply (Z.div_unique_pos _ _ 1 (file_size - tell - 1)); lia.
    + rewrite Z.min_l by lia.
      specialize (IH (tell + CHUNK_SIZE)).
      unfold_monad. run_call.
      * exists tell. repeat split; try lia; intros; discriminate.
      * specialize (IH (mkSt w (locals s))). cbv zeta in IH.
        destruct IH as (stop & Hend & Hlo & Hhi & Hfull & Hone & Hcount).
        unfold result_of, events_of in *.
        destruct (upload_session_loop fuel sid path file_size ow _ _) as [[r s'] t].
        simpl in *. rewrite Z.eqb_refl. simpl.
        destruct (Z.ltb_spec 0 CHUNK_SIZE); [| lia].
        destruct (Z.leb_spec CHUNK_SIZE (4 * 1024 * 1024)); [| lia].
        simpl. exists stop. repeat split; try lia; try assumption.
        -- intros _ Hfuel u Hr. apply (Hfull) with (u := u); try lia; assumption.
        -- intros u Hr Hfuel. rewrite Nat2Z.inj_succ.
           rewrite (Hcount u Hr) by lia.
           replace (Z.max 0 (file_size - tell)) with (file_size - tell) by lia.
           replace (Z.max 0 (file_size - (tell + CHUNK_SIZE)))
             with (file_size - tell - CHUNK_SIZE) by lia.
           replace (file_size - tell + CHUNK_SIZE - 1)
             with (file_size - tell - CHUNK_SIZE + CHUNK_SIZE - 1 + 1 * CHUNK_SIZE) by lia.
           rewrite Z.div_add by lia. lia.
Qed.

(** X4.  [_upload_large_file] hands the file over in consecutive chunks of
    at most 4 MiB, each starting where the one before ended: what Dropbox has
    accepted is always a prefix of the file, and when the function returns it
    is the whole file, in [ceil(file_size / 4 MiB)] chunks.  At most one call
    commits. *)
Theorem large_upload_chunks_cover_the_file (dropbox_path : string) (file_size : Z)
    (overwrite : bool) (s : St W L) :
  0 < file_size ->
  let m := _upload_large_file dropbox_path file_size overwrite in
  exists stop,
    chunks_end 0 (session_chunks (events_of m s)) = Some stop /\
    0 <= stop <= file_size /\
    (length (filter commit_call (events_of m s)) <= 1)%nat /\
    (forall u, result_of m s = inr u ->
       stop = file_size /\
       Z.of_nat (length (session_chunks (events_of m s))) =
         (file_size + CHUNK_SIZE - 1) / CHUNK_SIZE).
Proof.
  intros Hsize. cbv zeta. pose proof CHUNK_SIZE_pos as Hc.
  assert (Hchunk : CHUNK_SIZE = 4 * 1024 * 1024) by reflexivity.
  unfold _upload_large_file.
  set (first := Z.max 0 (Z.min CHUNK_SIZE file_size)).
  assert (Hfirst : first = Z.min CHUNK_SIZE file_size) by (unfold first; lia).
  assert (Hfuel : file_size - first <=
                  Z.of_nat (S (Z.to_nat (file_size / CHUNK_SIZE))) * CHUNK_SIZE).
  { rewrite Nat2Z.inj_succ, Z2Nat.id by (apply Z.div_pos; lia).
    pose proof (Z.mul_succ_div_gt file_size CHUNK_SIZE Hc). lia. }
  unfold bind, call, result_of, events_of.
  destruct (files_upload_session_start first (world s)) as [[e | sid] w]; cbn [fst snd].
  - exists 0. simpl. split; [reflexivity |]. split; [lia |]. split; [lia |].
    intros u Hr. discriminate.
  - destruct (upload_session_loop_chunks sid dropbox_path file_size overwrite
                (S (Z.to_nat (file_size / CHUNK_SIZE))) first (mkSt w (locals s)))
      as (stop & Hend & Hlo & Hhi & Hfull & Hone & Hcount).
    unfold result_of, events_of in *.
    destruct (upload_session_loop _ sid dropbox_path file_size overwrite first _)
      as [[r s'] t].
    cbn [fst snd] in *. exists stop.
    cbn [session_chunks session_chunk app filter commit_call chunks_end length].
    rewrite Z.eqb_refl.
    destruct (Z.ltb_spec 0 first); [| lia].
    destruct (Z.leb_spec first (4 * 1024 * 1024)); [| lia].
    cbn [andb]. rewrite Z.add_0_l.
    split; [exact Hend |]. split; [lia |]. split; [exact Hone |].
    intros u Hr. split.
    + destruct (Z_lt_le_dec first file_size) as [Hlt | Hge].
      * apply (Hfull Hlt Hfuel u Hr).
      * lia.
    + rewrite Nat2Z.inj_succ, (Hcount u Hr Hfuel).
      destruct (Z_le_gt_dec file_size CHUNK_SIZE) as [Hsmall | Hbig].
      * replace first with file_size by lia.
        replace (Z.max 0 (file_size - file_size)) with 0 by lia.
        rewrite (Z.div_small (0 + CHUNK_SIZE - 1)) by lia.
        apply (Z.div_unique_pos _ _ 1 (file_size - 1)); lia.
      * replace first with CHUNK_SIZE by lia.
        replace (Z.max 0 (file_size - CHUNK_SIZE)) with (file_size - CHUNK_SIZE) by lia.
        replace (file_size + CHUNK_SIZE - 1)
          with (file_size - CHUNK_SIZE + CHUNK_SIZE - 1 + 1 * CHUNK_SIZE) by lia.
        rewrite Z.div_add by lia. lia.
Qed.

(** X5.  Called for a file that fits in one chunk, [_upload_large_file]
    starts a session with the whole file and returns without committing it:
    its loop is not entered.  ([upload_file] calls it only above 150 MiB.) *)
Theorem one_chunk_file_is_never_committed (dropbox_path : string) (file_size : Z)
    (overwrite : bool) (s : St W L) :
  0 <= file_size <= CHUNK_SIZE ->
  let m := _upload_large_file dropbox_path file_size overwrite in
  exists res,
    events_of m s = [ESessionStart file_size res] /\
    filter commit_call (events_of m s) = [] /\
    result_of m s = match res with inl e => inl e | inr _ => inr tt end.
Proof.
  intros Hsize. cbv zeta.
  unfold _upload_large_file.
  replace (Z.max 0 (Z.min CHUNK_SIZE file_size)) with file_size by lia.
  unfold bind, call, result_of, events_of.
  destruct (files_upload_session_start file_size (world s)) as [[e | sid] w]; cbn [fst snd].
  - exists (inl e). repeat split.
  - cbn [upload_session_loop].
    destruct (Z.ltb_spec file_size file_size); [lia |].
    unfold ret. simpl. exists (inr sid). repeat split.
Qed.

Lemma upload_session_loop_finish (sid path : string) (file_size : Z) (ow : bool) :
  forall (fuel : nat) (tell : Z) (s : St W L),
    let m := upload_session_loop fuel sid path file_size ow tell in
    existsb (fun e => match e with EFilesUpload _ _ _ => true | _ => false end)
            (events_of m s) = false /\
    (tell < file_size -> file_size - tell <= Z.of_nat fuel * CHUNK_SIZE ->
     forall u, result_of m s = inr u ->
     exists offset len,
       In (ESessionFinish offset len path (write_mode ow) (inr tt)) (events_of m s) /\
       offset + len = file_size).
Proof.
  pose proof CHUNK_SIZE_pos as Hc.
  induction fuel as [| fuel IH]; intros tell s; cbv zeta.
  - simpl. unfold_monad; simpl. split; [reflexivity | intros; lia].
  - cbn [upload_session_loop].
    destruct (Z.ltb_spec tell file_size) as [Hlt | Hge].
    2:{ unfold_monad; simpl. split; [reflexivity | intros; lia]. }
    destruct (Z.leb_spec (file_size - tell) CHUNK_SIZE) as [Hlast | Hmore].
    + rewrite Z.min_r by lia. unfold_monad. run_call.
      * split; [reflexivity | intros; discriminate].
      * split; [reflexivity |]. intros _ _ u _. destruct a.
        exists tell, (file_size - tell). split; [left; reflexivity | lia].
    + rewrite Z.min_l by lia.
      specialize (IH (tell + CHUNK_SIZE)).
      unfold_monad. run_call.
      * split; [reflexivity | intros; discriminate].
      * specialize (IH (mkSt w (locals s))). cbv zeta in IH.
        destruct IH as (Hnone & Hfin).
        unfold result_of, events_of in *.
        destruct (upload_session_loop fuel sid path file_size ow _ _) as [[r s'] t].
        simpl in *. split; [exact Hnone |].
        intros _ Hfuel u Hr.
        destruct (Hfin ltac:(lia) ltac:(lia) u Hr) as (offset & len & Hin & Hsum).
        exists offset, len. split; [right; exact Hin | exact Hsum].
Qed.

(** X6.  Above 150 MiB [upload_file] does not call [files_upload]: it opens
    a session with the first 4 MiB, and when it returns [True] the whole file
    has gone over in consecutive chunks and has been committed under
    [dropbox_path], in the mode the [overwrite] flag selects. *)
Theorem big_file_goes_through_a_session (local_path dropbox_path : string)
    (overwrite : bool) (s : St W L) (file_size : Z) :
  fst (fs_open_size local_path (world s)) = inr file_size ->
  150 * 1024 * 1024 < file_size ->
  let m := upload_file local_path dropbox_path overwrite in
  existsb (fun e => match e with EFilesUpload _ _ _ => true | _ => false end)
          (events_of m s) = false /\
  (exists res rest,
     events_of m s =
       EOpen local_path (inr file_size) :: ESessionStart CHUNK_SIZE res :: rest) /\
  (result_of m s = inr true ->
   chunks_end 0 (session_chunks (events_of m s)) = Some file_size /\
   exists offset len,
     In (ESessionFinish offset len dropbox_path
                        (if overwrite then WriteMode_overwrite else WriteMode_add)
                        (inr tt))
        (events_of m s) /\
     offset + len = file_size).
Proof.
  intros Hopen Hbig. cbv zeta. pose proof CHUNK_SIZE_pos as Hc.
  assert (Hchunk : CHUNK_SIZE = 4 * 1024 * 1024) by reflexivity.
  unfold result_of, events_of.
  destruct (upload_file local_path dropbox_path overwrite s) as [[r0 s0] t0] eqn:Hrun.
  cbn [fst snd].
  unfold upload_file, _upload_large_file in Hrun.
  unfold try_except, bind, call, log, ret in Hrun.
  destruct (fs_open_size local_path (world s)) as [r w]. simpl in Hopen. subst r.
  cbn [fst snd world locals] in Hrun.
  destruct (Z.leb_spec file_size SIMPLE_UPLOAD_LIMIT) as [Hsmall | _];
    [unfold SIMPLE_UPLOAD_LIMIT in Hsmall; lia |].
  cbn [fst snd world locals] in Hrun.
  replace (Z.max 0 (Z.min CHUNK_SIZE file_size)) with CHUNK_SIZE in Hrun by lia.
  destruct (files_upload_session_start CHUNK_SIZE w) as [[e | sid] w1] eqn:Hstart;
    try rewrite Hstart in Hrun; cbn [fst snd world locals] in Hrun.
  - destruct (exn_class_of e) eqn:Hcls; try rewrite Hcls in Hrun; cbn [app] in Hrun;
      injection Hrun as Er Es Et; subst r0 s0 t0;
      (split; [reflexivity | split; [do 2 eexists; reflexivity | discriminate]]).
  - assert (Hfuel : file_size - CHUNK_SIZE <=
                    Z.of_nat (S (Z.to_nat (file_size / CHUNK_SIZE))) * CHUNK_SIZE).
    { rewrite Nat2Z.inj_succ, Z2Nat.id by (apply Z.div_pos; lia).
      pose proof (Z.mul_succ_div_gt file_size CHUNK_SIZE Hc). lia. }
    destruct (upload_session_loop_finish sid dropbox_path file_size overwrite
                (S (Z.to_nat (file_size / CHUNK_SIZE))) CHUNK_SIZE (mkSt w1 (locals s)))
      as (Hnone & Hfin).
    destruct (upload_session_loop_chunks sid dropbox_path file_size overwrite
                (S (Z.to_nat (file_size / CHUNK_SIZE))) CHUNK_SIZE (mkSt w1 (locals s)))
      as (stop & Hend & _ & _ & Hfull & _).
    unfold result_of, events_of in Hnone, Hfin, Hend, Hfull.
    destruct (upload_session_loop _ sid dropbox_path file_size overwrite CHUNK_SIZE _)
      as [[r s'] t] eqn:Hloop.
    try rewrite Hloop in Hrun. cbn [fst snd] in *.
    destruct r as [e | []].
    + destruct (exn_class_of e) eqn:Hcls; try rewrite Hcls in Hrun; cbn [app] in Hrun;
        injection Hrun as Er Es Et; subst r0 s0 t0; cbn [existsb orb];
        (split; [rewrite existsb_app, Hnone; reflexivity
                | split; [do 2 eexists; reflexivity | discriminate]]).
    + cbn [app] in Hrun. injection Hrun as Er Es Et; subst r0 s0 t0. cbn [existsb orb].
      split; [rewrite existsb_app, Hnone; reflexivity |].
      split; [do 2 eexists; reflexivity |]. intros _.
      rewrite (Hfull ltac:(lia) Hfuel tt eq_refl) in Hend.
      destruct (Hfin ltac:(lia) Hfuel tt eq_refl) as (offset & len & Hin & Hsum).
      split.
      * cbn [session_chunks session_chunk chunks_end].
        rewrite session_chunks_app. cbn [session_chunks session_chunk].
        rewrite app_nil_r, Z.eqb_refl.
        destruct (Z.ltb_spec 0 CHUNK_SIZE); [| lia].
        destruct (Z.leb_spec CHUNK_SIZE (4 * 1024 * 1024)); [| lia].
        cbn [andb]. rewrite Z.add_0_l. exact Hend.
      * exists offset, len. split; [| exact Hsum].
        right. right. apply in_or_app. left.
        unfold write_mode in Hin. exact Hin.
Qed.

End UploadMore.

(** ** More of [backup_repository] *)

Section Names.
Context {W : Type} `{Collaborators W} {L : Type}.

Lemma upload_session_loop_names (sid local_path dropbox_path : string)
    (file_size : Z) (ow : bool) :
  forall (fuel : nat) (tell : Z) (s : St W L),
    Forall (upload_names local_path dropbox_path)
           (events_of (upload_session_loop fuel sid dropbox_path file_size ow tell) s).
Proof.
  induction fuel as [| fuel IH]; intros tell s.
  - simpl. constructor.
  - cbn [upload_session_loop].
    destruct (tell <? file_size); [| constructor].
    destruct (file_size - tell <=? CHUNK_SIZE).
    + unfold_monad. run_call; repeat constructor.
    + unfold_monad. run_call; [repeat constructor |].
      match goal with
      | |- context [upload_session_loop fuel sid dropbox_path file_size ow ?tl ?st] =>
          specialize (IH tl st); unfold events_of in IH;
          destruct (upload_session_loop fuel sid dropbox_path file_size ow tl st)
            as [[r s'] t]
      end.
      simpl in *. constructor; [exact I | exact IH].
Qed.

Lemma upload_file_names (local_path dropbox_path : string) (ow : bool) (s : St W L) :
  Forall (upload_names local_path dropbox_path)
         (events_of (upload_file local_path dropbox_path ow) s).
Proof.
  unfold events_of.
  destruct (upload_file local_path dropbox_path ow s) as [[r0 s0] t0] eqn:Hrun.
  cbn [snd].
  unfold upload_file, _upload_large_file, try_except, bind, call, log, ret in Hrun.
  destruct (fs_open_size local_path (world s)) as [[e | file_size] w] eqn:Hopen;
    try rewrite Hopen in Hrun; cbn [fst snd world locals] in Hrun.
  - destruct (exn_class_of e); cbn [app] in Hrun;
      injection Hrun as _ _ <-; repeat constructor.
  - destruct (file_size <=? SIMPLE_UPLOAD_LIMIT); cbn [fst snd world locals] in Hrun.
    + destruct (files_upload file_size dropbox_path (write_mode ow) w)
        as [[e | []] w1] eqn:Hcall;
        try rewrite Hcall in Hrun; cbn [fst snd world locals app] in Hrun.
      * destruct (exn_class_of e); cbn [app] in Hrun;
          injection Hrun as _ _ <-; repeat constructor.
      * injection Hrun as _ _ <-; repeat constructor.
    + destruct (files_upload_session_start _ w) as [[e | sid] w1] eqn:Hstart;
        try rewrite Hstart in Hrun; cbn [fst snd world locals app] in Hrun.
      * destruct (exn_class_of e); cbn [app] in Hrun;
          injection Hrun as _ _ <-; repeat constructor.
      * match type of Hrun with
        | context [upload_session_loop ?f sid dropbox_path ?sz ow ?tl ?st] =>
            pose proof (upload_session_loop_names sid local_path dropbox_path sz ow f tl st)
              as Hloop;
            unfold events_of in Hloop;
            destruct (upload_session_loop f sid dropbox_path sz ow tl st)
              as [[r s'] t] eqn:Hl; try rewrite Hl in Hrun
        end.
        cbn [fst snd] in *. destruct r as [e | []].
        -- destruct (exn_class_of e); cbn [app] in Hrun;
             injection Hrun as _ _ <-;
             (constructor; [reflexivity |]); (constructor; [exact I |]);
             (apply Forall_app; split; [exact Hloop | repeat constructor]).
        -- cbn [app] in Hrun. injection Hrun as _ _ <-.
           constructor; [reflexivity |]. constructor; [exact I |].
           apply Forall_app; split; [exact Hloop | repeat constructor].
Qed.

Lemma upload_scope_no_temp (t : list event) :
  forallb upload_scope t = true -> filter temp_event t = [].
Proof.
  intros Hs. apply filter_none.
  eapply forallb_excludes; [| exact Hs]. unfold upload_scope. by_kind.
Qed.

Lemma upload_names_are_backup_names (backup_folder : string) (repo : Repository)
    (temp_dir timestamp : string) (t : list event) :
  Forall (upload_names
            (path_str (path_div [temp_dir] (fmt [name repo; "_"; timestamp; ".zip"])))
            (fmt [backup_folder; "/"; name repo; "/";
                  fmt [name repo; "_"; timestamp; ".zip"]])) t ->
  Forall (backup_names backup_folder repo temp_dir timestamp) t.
Proof.
  apply Forall_impl. intros e He. destruct e; simpl in *; auto; contradiction.
Qed.

#[local] Arguments fmt : simpl never.
#[local] Arguments path_str : simpl never.
#[local] Arguments path_div : simpl never.

(** Run [upload_file], keeping what it names. *)
Ltac run_upload_names :=
  match goal with
  | |- context [upload_file ?l ?d ?o ?st] =>
      let b := fresh "b" in let r := fresh "r" in let ut := fresh "ut" in
      let w' := fresh "w" in let l' := fresh "l" in
      pose proof (upload_file_names l d o st) as Hnames;
      destruct (upload_file_run l d o st) as (b & Hr & Hl & Hsc & _ & _);
      unfold result_of, state_after, events_of in Hr, Hl, Hsc, Hnames;
      destruct (upload_file l d o st) as [[r [w' l']] ut];
      cbn [fst snd locals] in Hr, Hl, Hsc, Hnames; subst r l';
      pose proof (upload_scope_no_temp ut Hsc) as Hnotemp;
      apply upload_names_are_backup_names in Hnames;
      destruct b
  end.

Ltac names_done :=
  cbn [fst snd app];
  split;
  [ cbn [filter temp_event app]; rewrite ?filter_app; cbn [filter temp_event app];
    repeat match goal with Hn : filter temp_event _ = [] |- _ => rewrite Hn end;
    reflexivity
  | eexists;
    repeat first
      [ apply Forall_nil
      | apply Forall_cons;
        [cbn [backup_names]; first [exact I | reflexivity | split; reflexivity] |]
      | eassumption
      | apply Forall_app; split ] ].

Variable backup_folder : string.

Lemma backup_repository_names_run (repo : Repository) (s : St W L) :
  let t := events_of (backup_repository backup_folder repo) s in
  let temp_dir := fst (fs_mkdtemp (world s)) in
  filter temp_event t = [EMkdtemp temp_dir; ECleanup temp_dir] /\
  exists timestamp, Forall (backup_names backup_folder repo temp_dir timestamp) t.
Proof.
  cbv zeta.
  unfold backup_repository, write_archive, create_folder.
  unfold result_of, state_after, events_of, bind, try_except, finally,
    call, call_ok, log, ret, raise, ask.
  destruct (fs_mkdtemp (world s)) as [temp_dir w0]. cbn [fst snd world locals].
  run_call.
  { destruct (exn_class_of e); names_done. }
  destruct (returncode a =? 0); cbn [negb]; [| names_done].
  destruct (archive_entries _ _) as [e | members]; cbn [fst snd world locals].
  { destruct (exn_class_of e); names_done. }
  run_call.
  { destruct (exn_class_of e); names_done. }
  run_call.
  - destruct (exn_class_of e) as [ | [ | ] | | | | ] eqn:Hcls;
      cbn [fst snd world locals]; rewrite ?Hcls; cbn [fst snd world locals];
      try run_upload_names; names_done.
  - run_upload_names; names_done.
  Unshelve. all: exact "".
Qed.


Lemma backup_repository_no_directory_call (repo : Repository) (s : St W L) :
  existsb directory_call (events_of (backup_repository backup_folder repo) s) = false.
Proof.
  destruct (backup_repository_names_run repo s) as [_ [timestamp Hnames]].
  induction Hnames as [| e t He _ IH]; [reflexivity |].
  cbn [existsb]. rewrite IH. destruct e; simpl in *; try reflexivity; contradiction.
Qed.


End Names.

(** ** More of the two runs *)

Lemma lookups_app (t1 t2 : list event) : lookups (t1 ++ t2) = lookups t1 ++ lookups t2.
Proof. unfold lookups. apply flat_map_app. Qed.

Lemma no_directory_call_no_lookup (t : list event) :
  existsb directory_call t = false ->
  lookups t = [] /\ existsb listing_call t = false /\ filter directory_call t = [].
Proof.
  induction t as [| e t IH]; [auto |].
  cbn [existsb]. intros Hno. apply orb_false_iff in Hno. destruct Hno as [He Ht].
  destruct (IH Ht) as (I1 & I2 & I3).
  destruct e; simpl in *; try discriminate; auto.
Qed.

Section RunsMore.
Context {W : Type} `{Collaborators W}.
Variable backup_folder : string.






(** A targeted run is its loop, run on fresh counters. *)
Lemma targeted_run_unfolds {L} (repo_names : list string) (username : option string)
    (s : St W L) :
  let m := backup_specific_repositories backup_folder repo_names username in
  let loop := for_each repo_names (backup_requested backup_folder username) in
  let s0 := mkSt (world s) (Targeted.initial repo_names) in
  result_of m s = inr (locals (state_after loop s0)) /\
  events_of m s = events_of loop s0.
Proof.
  cbv zeta.
  unfold backup_specific_repositories, in_frame, bind, get_locals,
    result_of, state_after, events_of.
  destruct (targeted_loop_run backup_folder username repo_names
              (mkSt (world s) (Targeted.initial repo_names))) as (ds & Hr & _).
  unfold result_of in Hr.
  destruct (for_each repo_names _ _) as [[r s1] t]. cbn [fst snd] in *. subst r.
  cbn [fst snd]. rewrite app_nil_r. split; reflexivity.
Qed.

(** X11.  A targeted run always returns a summary, and in it
    [requested_repos], the number of names asked for, is
    [successful_backups + failed_backups + not_found_repos]; the first two
    count the outcomes by their [success], and a name counted as not found
    has no outcome. *)
Theorem targeted_run_total_is_sum {L} (repo_names : list string)
    (username : option string) (s : St W L) :
  exists res,
    result_of (backup_specific_repositories backup_folder repo_names username) s
      = inr res /\
    Targeted.requested_repos res = Z.of_nat (length repo_names) /\
    Targeted.requested_repos res =
      Targeted.successful_backups res + Targeted.failed_backups res
      + Targeted.not_found_repos res /\
    Targeted.successful_backups res =
      Z.of_nat (length (filter bd_success (Targeted.backup_details res))) /\
    Targeted.failed_backups res =
      Z.of_nat (length (filter (fun d => negb (bd_success d))
                               (Targeted.backup_details res))) /\
    Z.of_nat (length (Targeted.backup_details res)) =
      Targeted.requested_repos res - Targeted.not_found_repos res.
Proof.
  destruct (targeted_run_unfolds repo_names username s) as [Hr _]. cbv zeta in Hr.
  destruct (targeted_loop_run backup_folder username repo_names
              (mkSt (world s) (Targeted.initial repo_names)))
    as (ds & _ & Hreq & Hdet & Hsucc & Hfail & Hnf & _).
  cbn [locals] in Hreq, Hdet, Hsucc, Hfail, Hnf.
  eexists. split; [exact Hr |].
  rewrite Hreq, Hdet, Hsucc, Hfail. cbn [Targeted.initial Targeted.requested_repos
    Targeted.backup_details Targeted.successful_backups Targeted.failed_backups
    Targeted.not_found_repos app] in *.
  pose proof (filter_split_length bd_success ds) as Hds.
  repeat split; lia.
Qed.

Lemma backup_requested_lookup (owner repo_name : string) (username : option string)
    (s : St W Targeted.results) :
  truthy username = Some owner ->
  let m := backup_requested backup_folder username repo_name in
  lookups (events_of m s) = [(owner, repo_name)] /\
  existsb listing_call (events_of m s) = false.
Proof.
  intros Htruthy. cbv zeta. unfold events_of.
  destruct (backup_requested backup_folder username repo_name s) as [[r0 s0] t0] eqn:Hrun.
  cbn [snd].
  unfold backup_requested, get_repository, try_except, bind at 1 2, call in Hrun.
  rewrite Htruthy in Hrun.
  destruct (gh_get_repository owner repo_name (world s)) as [[e | repo] w1] eqn:Hget;
    try rewrite Hget in Hrun; cbn [fst snd world locals] in Hrun.
  - unfold_monad. cbn [fst snd app] in Hrun. injection Hrun as _ _ <-. split; reflexivity.
  - destruct (backup_resolved_run backup_folder repo (mkSt w1 (locals s)))
      as (b & d & _ & Hr & _ & _ & _ & Ht).
    pose proof (backup_repository_no_directory_call backup_folder repo
                  (mkSt w1 (locals s))) as Hnodir.
    rewrite <- Ht in Hnodir. clear Ht.
    destruct (no_directory_call_no_lookup _ Hnodir) as (Hlook & Hlist & _).
    unfold result_of, events_of in Hr, Hlook, Hlist.
    destruct (backup_resolved backup_folder repo _) as [[r1 s1] t1] eqn:Hres;
      try rewrite Hres in Hrun.
    cbn [fst snd] in *. subst r1. cbn [app] in Hrun. injection Hrun as _ _ <-.
    cbn [lookups flat_map existsb listing_call orb app].
    fold (lookups t1). rewrite Hlook, Hlist. split; reflexivity.
Qed.

(** X12.  With an account given, a targeted run never fetches the listing:
    it looks each requested name up under that account, once, in the order
    of the request. *)
Theorem targeted_run_looks_each_name_up {L} (repo_names : list string)
    (username : option string) (owner : string) (s : St W L) :
  truthy username = Some owner ->
  let t := events_of (backup_specific_repositories backup_folder repo_names username) s in
  lookups t = map (fun repo_name => (owner, repo_name)) repo_names /\
  existsb listing_call t = false.
Proof.
  intros Htruthy. cbv zeta.
  destruct (targeted_run_unfolds repo_names username s) as [_ Ht]. cbv zeta in Ht.
  rewrite Ht. clear Ht.
  generalize (mkSt (world s) (Targeted.initial repo_names)).
  induction repo_names as [| repo_name rest IH]; intros s0.
  - split; reflexivity.
  - cbn [for_each]. unfold bind, events_of.
    destruct (backup_requested_lookup owner repo_name username s0 Htruthy) as [Hlook Hlist].
    destruct (backup_requested_step backup_folder username repo_name s0) as (ds & Hr & _).
    unfold result_of, events_of in Hlook, Hlist, Hr.
    destruct (backup_requested backup_folder username repo_name s0) as [[r1 s1] t1].
    cbn [fst snd] in *. subst r1.
    destruct (IH s1) as [Ilook Ilist]. unfold events_of in Ilook, Ilist.
    destruct (for_each rest _ s1) as [[r2 s2] t2]. cbn [fst snd] in *.
    rewrite lookups_app, existsb_app, Hlook, Hlist, Ilook, Ilist. split; reflexivity.
Qed.

(** X13.  When resolving a requested name raises (the lookup, with an
    account; the listing, without one), no backup is attempted for it: the
    name is counted in [failed_backups] and recorded with [success = False]
    and the text of the exception, and the turn ends normally, so that the
    next name is processed. *)
Theorem resolution_error_is_recorded (username : option string) (repo_name : string)
    (e : exn) (s : St W Targeted.results) :
  match truthy username with
  | Some owner => fst (gh_get_repository owner repo_name (world s)) = inl e
  | None => fst (gh_get_user_repositories None (world s)) = inl e
  end ->
  let m := backup_requested backup_folder username repo_name in
  let r' := locals (state_after m s) in
  result_of m s = inr tt /\
  Targeted.failed_backups r' = Targeted.failed_backups (locals s) + 1 /\
  Targeted.successful_backups r' = Targeted.successful_backups (locals s) /\
  Targeted.not_found_repos r' = Targeted.not_found_repos (locals s) /\
  (exists timestamp,
     Targeted.backup_details r' =
       Targeted.backup_details (locals s) ++
       [mkDetail repo_name None false timestamp None None (Some (str e))]) /\
  clone_urls (events_of m s) = [].
Proof.
  intros Hraise. cbv zeta.
  destruct (backup_requested_run backup_folder username repo_name s) as [Hres Hcase].
  cbv zeta in Hcase.
  destruct (truthy username) as [owner |]; rewrite Hraise in Hcase;
    destruct Hcase as [[ts Hl] Ht]; rewrite Hl, Ht;
    (split; [exact Hres |]); repeat split; exists ts; reflexivity.
Qed.

End RunsMore.

(** ** More of the archive *)

Lemma NoDup_app_inv {A} (l1 l2 : list A) :
  NoDup (l1 ++ l2) -> NoDup l1 /\ (forall a, In a l1 -> ~ In a l2) /\ NoDup l2.
Proof.
  intros Hnd. split; [exact (NoDup_app_remove_r _ _ Hnd) |].
  split; [| exact (NoDup_app_remove_l _ _ Hnd)].
  induction l1 as [| x l1 IH]; intros a Hin; [contradiction |].
  cbn [app] in Hnd. apply NoDup_cons_iff in Hnd. destruct Hnd as [Hx Hnd].
  destruct Hin as [-> | Hin].
  - intros Hin2. apply Hx. apply in_or_app. right. exact Hin2.
  - exact (IH Hnd a Hin).
Qed.

Lemma rglob_below (n : node) (base q : Path) (m : node) :
  In (q, m) (rglob base n) -> exists rel, rel <> [] /\ q = base ++ rel.
Proof.
  intros Hin. destruct (rglob_sound n base q m Hin) as (rel & Hne & Hq & _). eauto.
Qed.

Lemma rglob_paths_distinct (n : node) :
  well_formed n -> forall base, NoDup (map fst (rglob base n)).
Proof.
  induction n as [data | | entries IH] using node_tree_ind; intros Hwf base;
    try (simpl; constructor).
  inversion Hwf as [| | entries' Hnames Hsub]; subst. clear Hwf.
  cbn [rglob]. rewrite map_app, map_map. cbn [fst].
  revert Hnames Hsub IH. induction entries as [| [c k] rest IHrest]; intros Hnames Hsub IH.
  - constructor.
  - cbn [map fst flat_map app] in *.
    inversion Hnames as [| c' names Hc Hrest]; subst.
    inversion Hsub as [| e es Hk Hsubrest]; subst.
    inversion IH as [| e es IHk IHrest']; subst. cbn [snd fst] in *.
    specialize (IHrest Hrest Hsubrest IHrest').
    apply NoDup_app_inv in IHrest. destruct IHrest as (Hsiblings & Hdisj & Hdeep).
    constructor.
    + (* the entry itself is not listed again *)
      rewrite in_app_iff. intros [Hin | Hin].
      * apply in_map_iff in Hin. destruct Hin as [[c2 k2] [Heq Hin]]. cbn [fst] in Heq.
        unfold path_div in Heq. apply app_inv_head in Heq. injection Heq as ->.
        apply Hc. apply in_map_iff. exists (c, k2). split; [reflexivity | exact Hin].
      * rewrite map_app, in_app_iff in Hin. destruct Hin as [Hin | Hin].
        -- apply in_map_iff in Hin. destruct Hin as [[q m] [Heq Hin]]. cbn [fst] in Heq.
           subst q. apply rglob_below in Hin. destruct Hin as (rel & Hne & Heq).
           unfold path_div in Heq. rewrite <- app_assoc in Heq.
           apply app_inv_head in Heq. destruct rel; [contradiction | discriminate].
        -- apply in_map_iff in Hin. destruct Hin as [[q m] [Heq Hin]]. cbn [fst] in Heq.
           subst q. apply in_flat_map in Hin. destruct Hin as [[c2 k2] [Hin2 Hin]].
           apply rglob_below in Hin. destruct Hin as (rel & Hne & Heq). cbn [fst] in Heq.
           unfold path_div in Heq. rewrite <- app_assoc in Heq.
           apply app_inv_head in Heq. destruct rel; [contradiction | discriminate].
    + rewrite map_app. rewrite app_assoc.
      apply NoDup_app; [| exact Hdeep |].
      * (* the later siblings, then what is below this entry *)
        apply NoDup_app; [exact Hsiblings | apply IHk; exact Hk |].
        intros q Hsib Hbelow.
        apply in_map_iff in Hsib. destruct Hsib as [[c2 k2] [Heq Hin]]. cbn [fst] in Heq.
        apply in_map_iff in Hbelow. destruct Hbelow as [[q' m] [Heq' Hin']].
        cbn [fst] in Heq'. subst q q'.
        apply rglob_below in Hin'. destruct Hin' as (rel & Hne & Heq).
        unfold path_div in Heq. rewrite <- !app_assoc in Heq.
        apply app_inv_head in Heq. destruct rel; [contradiction | discriminate].
      * intros q Hleft Hright.
        apply in_map_iff in Hright. destruct Hright as [[q' m] [Heq' Hin']].
        cbn [fst] in Heq'. subst q'.
        apply in_flat_map in Hin'. destruct Hin' as [[c2 k2] [Hin2 Hin']].
        apply rglob_below in Hin'. destruct Hin' as (rel & Hne & Heq). cbn [fst] in Heq.
        rewrite in_app_iff in Hleft. destruct Hleft as [Hsib | Hbelow].
        -- apply (Hdisj q).
           ++ exact Hsib.
           ++ apply in_map_iff. exists (q, m). split; [reflexivity |].
              apply in_flat_map. exists (c2, k2). split; [exact Hin2 |].
              subst q. eapply rglob_complete; [exact Hne |].
              apply in_map_iff in Hsib. destruct Hsib as [[c3 k3] [Heq3 Hin3]].
              cbn [fst] in Heq3. unfold path_div in Heq3. rewrite <- app_assoc in Heq3.
              apply app_inv_head in Heq3.
              destruct rel as [| x [| y rel]]; [contradiction | discriminate | discriminate].
        -- apply in_map_iff in Hbelow. destruct Hbelow as [[q2 m2] [Heq2 Hin2']].
           cbn [fst] in Heq2. subst q2.
           apply rglob_below in Hin2'. destruct Hin2' as (rel2 & Hne2 & Heq2).
           rewrite Heq in Heq2. unfold path_div in Heq2. rewrite <- !app_assoc in Heq2.
           apply app_inv_head in Heq2. cbn [app] in Heq2. injection Heq2 as -> _.
           apply Hc. apply in_map_iff. exists (c, k2). split; [reflexivity | exact Hin2].
Qed.

Lemma zip_entries_distinct (base : Path) (found : list (Path * node)) :
  (forall q m, In (q, m) found -> exists rel, q = base ++ rel) ->
  NoDup (map fst found) ->
  forall members, zip_entries base found = inr members -> NoDup (map fst members).
Proof.
  induction found as [| [q n] rest IH]; intros Hpre Hnd members Hzip.
  - injection Hzip as <-. constructor.
  - cbn [map fst] in Hnd. apply NoDup_cons_iff in Hnd. destruct Hnd as [Hq Hnd].
    assert (Hpre' : forall q m, In (q, m) rest -> exists rel, q = base ++ rel)
      by (intros q' m' Hin; apply (Hpre q' m'); right; exact Hin).
    destruct (Hpre q n (or_introl eq_refl)) as [rel Heq]. subst q.
    destruct (zip_entries_spec base rest Hpre') as [zs [Hzs Hmem]].
    destruct n as [data | entries | ]; cbn [zip_entries] in Hzip.
    + rewrite relative_to_app, Hzs in Hzip. injection Hzip as <-.
      cbn [map fst]. constructor; [| exact (IH Hpre' Hnd zs Hzs)].
      intros Hin. apply in_map_iff in Hin. destruct Hin as [[p d] [Hp Hin]].
      cbn [fst] in Hp. subst p. apply Hmem in Hin.
      apply Hq. apply in_map_iff. exists (base ++ rel, File d). split; [reflexivity | exact Hin].
    + exact (IH Hpre' Hnd members Hzip).
    + exact (IH Hpre' Hnd members Hzip).
Qed.

(** X14.  When the entries of every directory of the mirror have different
    names, no two members of the archive have the same name: no file is written
    to the archive twice. *)
Theorem archive_members_are_distinct (repo_path : Path) (mirror : node) :
  well_formed mirror ->
  exists members,
    archive_entries repo_path mirror = inr members /\
    NoDup (map fst members).
Proof.
  intros Hwf.
  destruct (archive_entries_spec repo_path mirror) as [members [Hentries _]].
  exists members. split; [exact Hentries |].
  unfold archive_entries in Hentries.
  eapply zip_entries_distinct; [| apply rglob_paths_distinct; exact Hwf | exact Hentries].
  intros q m Hin. apply rglob_below in Hin. destruct Hin as (rel & _ & Heq). eauto.
Qed.

(** X15.  Directories, and whatever else is not a regular file, leave no
    trace in the archive: a mirror without regular files gives an archive
    without members, and a path that is not a directory gives one too. *)
Theorem archive_of_no_files_is_empty (repo_path : Path) (mirror : node) :
  (forall p data, ~ reaches mirror p (File data)) \/
  (forall entries, mirror <> Dir entries) ->
  archive_entries repo_path mirror = inr [].
Proof.
  intros Hnone.
  destruct (archive_entries_spec repo_path mirror) as [members [Hentries Hmem]].
  rewrite Hentries. f_equal.
  destruct members as [| [p data] rest]; [reflexivity |].
  exfalso. destruct (proj1 (Hmem p data) (or_introl eq_refl)) as [Hne Hreach].
  destruct Hnone as [Hnone | Hnodir].
  - exact (Hnone p data Hreach).
  - inversion Hreach; subst; [contradiction | eapply Hnodir; reflexivity].
Qed.

(** ** The listing of the repository directory, page after page *)

Section Paging.
Import GitHubClient.
Context {W : Type} `{Session W}.

Lemma make_repository_describes (d : repo_data) (r : Repository) :
  make_repository d = inr r -> describes d r.
Proof.
  unfold make_repository, describes, and_then, item.
  destruct d as [n f c b p z u]; cbn [d_name d_full_name d_clone_url d_default_branch
                                        d_private d_size d_updated_at].
  destruct n, f, c, b, p, z, u; try discriminate.
  intros E. injection E as <-. cbn. repeat split.
Qed.

Lemma make_repository_error (d : repo_data) (e : exn) :
  make_repository d = inl e ->
  exists key, e = KeyError key /\
              In key ["name"; "full_name"; "clone_url"; "default_branch"; "private";
                      "size"; "updated_at"].
Proof.
  unfold make_repository, and_then, item.
  destruct d as [n f c b p z u]; cbn [d_name d_full_name d_clone_url d_default_branch
                                        d_private d_size d_updated_at].
  destruct n; [| intros E; injection E as <-; eexists; split; [reflexivity | cbn; tauto]].
  destruct f; [| intros E; injection E as <-; eexists; split; [reflexivity | cbn; tauto]].
  destruct c; [| intros E; injection E as <-; eexists; split; [reflexivity | cbn; tauto]].
  destruct b; [| intros E; injection E as <-; eexists; split; [reflexivity | cbn; tauto]].
  destruct p; [| intros E; injection E as <-; eexists; split; [reflexivity | cbn; tauto]].
  destruct z; [| intros E; injection E as <-; eexists; split; [reflexivity | cbn; tauto]].
  destruct u; [| intros E; injection E as <-; eexists; split; [reflexivity | cbn; tauto]].
  discriminate.
Qed.

Lemma append_all_inr (data : list repo_data) (repos out : list Repository) :
  append_all data repos = inr out ->
  exists rs, out = repos ++ rs /\ Forall2 describes data rs.
Proof.
  revert repos. induction data as [| d rest IH]; intros repos E; cbn [append_all] in E.
  - injection E as <-. exists []. rewrite app_nil_r. split; [reflexivity | constructor].
  - destruct (make_repository d) as [e | r] eqn:Hd; [discriminate |].
    destruct (IH _ E) as (rs & -> & Hrs).
    exists (r :: rs). rewrite <- app_assoc. split; [reflexivity |].
    constructor; [apply make_repository_describes; exact Hd | exact Hrs].
Qed.

Lemma append_all_inl (data : list repo_data) (repos : list Repository) (e : exn) :
  append_all data repos = inl e ->
  exists d, In d data /\ make_repository d = inl e.
Proof.
  revert repos. induction data as [| d rest IH]; intros repos E; cbn [append_all] in E.
  - discriminate.
  - destruct (make_repository d) as [e' | r] eqn:Hd.
    + injection E as ->. exists d. split; [left; reflexivity | exact Hd].
    + destruct (IH _ E) as (d' & Hin & Hd'). exists d'. split; [right; exact Hin | exact Hd'].
Qed.

Lemma append_all_complete (data : list repo_data) (repos : list Repository) :
  forallb complete data = true -> exists out, append_all data repos = inr out.
Proof.
  revert repos. induction data as [| d rest IH]; intros repos Hall; cbn [append_all].
  - eexists; reflexivity.
  - cbn [forallb] in Hall. apply andb_true_iff in Hall as [Hd Hrest].
    unfold complete in Hd. destruct (make_repository d); [discriminate |].
    apply IH. exact Hrest.
Qed.

Lemma pages_loop_more_fuel (fuel : nat) (url : string) (pg : Z) (repos : list Repository)
    (w : W) out :
  pages_loop fuel url pg repos w = Some out ->
  forall fuel', (fuel <= fuel')%nat -> pages_loop fuel' url pg repos w = Some out.
Proof.
  revert pg repos w out.
  induction fuel as [| fuel IH]; intros pg repos w out E fuel' Hle; [discriminate |].
  destruct fuel' as [| fuel']; [lia |].
  cbn [pages_loop] in *. cbv zeta in *.
  destruct (session_get_list url (listing_params pg) w) as [[e | [| d ds]] w1];
    try exact E.
  destruct (append_all (d :: ds) repos) as [e | repos']; [exact E |].
  destruct (pages_loop fuel url (pg + 1) repos' w1) as [next |] eqn:Hnext; [| discriminate].
  rewrite (IH _ _ _ _ Hnext fuel' ltac:(lia)). exact E.
Qed.

Lemma pages_loop_run (fuel : nat) (url : string) (pg : Z) (repos : list Repository)
    (w : W) r w' t :
  pages_loop fuel url pg repos w = Some (r, w', t) ->
  requests t = map (fun k => (url, listing_params (pg + Z.of_nat k))) (seq 0 (length t)) /\
  logged t = [] /\
  exists front p res,
    t = front ++ [GetList url p res] /\
    Forall full_page front /\
    match r with
    | inr out =>
        res = inr [] /\
        exists rs, out = repos ++ rs /\ Forall2 describes (listed t) rs
    | inl e =>
        match res with
        | inl e' => e' = e
        | inr data => exists d, In d data /\ make_repository d = inl e
        end
    end.
Proof.
  revert pg repos w r w' t.
  induction fuel as [| fuel IH]; intros pg repos w r w' t E; [discriminate |].
  cbn [pages_loop] in E. cbv zeta in E.
  destruct (session_get_list url (listing_params pg) w) as [[e | [| d ds]] w1].
  - injection E as <- <- <-. cbn. rewrite Z.add_0_r.
    split; [reflexivity |]. split; [reflexivity |].
    exists [], (listing_params pg), (inl e). repeat split. constructor.
  - injection E as <- <- <-. cbn. rewrite Z.add_0_r.
    split; [reflexivity |]. split; [reflexivity |].
    exists [], (listing_params pg), (inr []). split; [reflexivity |].
    split; [constructor |]. split; [reflexivity |].
    exists []. rewrite app_nil_r. split; [reflexivity | constructor].
  - destruct (append_all (d :: ds) repos) as [e | repos'] eqn:Happ.
    + injection E as <- <- <-. cbn [requests logged length seq map]. rewrite Z.add_0_r.
      split; [reflexivity |]. split; [reflexivity |].
      exists [], (listing_params pg), (inr (d :: ds)). split; [reflexivity |].
      split; [constructor |]. apply append_all_inl in Happ. exact Happ.
    + destruct (pages_loop fuel url (pg + 1) repos' w1) as [[[r1 w2] t1] |] eqn:Hnext;
        [| discriminate].
      injection E as <- <- <-.
      destruct (IH _ _ _ _ _ _ Hnext) as (Hreq & Hlog & front & p & res & Ht & Hfront & Hr).
      cbn [requests logged length seq map]. rewrite Z.add_0_r.
      split.
      { rewrite Hreq. f_equal. rewrite <- seq_shift, map_map.
        apply map_ext. intros k. do 2 f_equal. lia. }
      split; [exact Hlog |].
      exists (GetList url (listing_params pg) (inr (d :: ds)) :: front), p, res.
      split; [rewrite Ht; reflexivity |].
      split; [constructor; [exact I | exact Hfront] |].
      destruct r1 as [e | out]; [exact Hr |].
      destruct Hr as (Hres & rs & Hout & Hrs). split; [exact Hres |].
      apply append_all_inr in Happ as (rs0 & -> & Hrs0).
      exists (rs0 ++ rs). rewrite app_assoc. split; [exact Hout |].
      cbn [listed]. apply Forall2_app; assumption.
Qed.

Lemma requests_app (t1 t2 : list step) : requests (t1 ++ t2) = requests t1 ++ requests t2.
Proof.
  induction t1 as [| [url p res | url res | msg] t1 IH]; cbn; rewrite ?IH; reflexivity.
Qed.

Lemma listed_app (t1 t2 : list step) : listed (t1 ++ t2) = listed t1 ++ listed t2.
Proof.
  induction t1 as [| [url p [e | data] | url res | msg] t1 IH]; cbn; rewrite ?IH;
    rewrite ?app_assoc; reflexivity.
Qed.

Lemma logged_app (t1 t2 : list step) : logged (t1 ++ t2) = logged t1 ++ logged t2.
Proof.
  induction t1 as [| [url p res | url res | msg] t1 IH]; cbn; rewrite ?IH; reflexivity.
Qed.

(** X16.  [get_user_repositories] asks for page 1, then page 2, and so on,
    never skipping or repeating one: whenever it returns or raises, the
    requests it sent are the pages 1 to [n] in order, for some [n >= 1], each
    to the same URL -- the account's listing when a user name is given, the
    authenticated user's otherwise -- with 100 entries a page, sorted by update
    time, newest first. *)
Theorem listing_asks_page_after_page (fuel : nat) (username : option string) (w : W)
    r w' t :
  get_user_repositories fuel username w = Some (r, w', t) ->
  exists n, (1 <= n)%nat /\
    requests t =
      map (fun k => (listing_url username, mkParams (Z.of_nat k) 100 "updated" "desc"))
          (seq 1 n).
Proof.
  unfold get_user_repositories. intros E.
  destruct (pages_loop fuel (listing_url username) 1 [] w) as [[[r1 w1] t1] |] eqn:Hloop;
    [| discriminate].
  destruct (pages_loop_run _ _ _ _ _ _ _ _ Hloop)
    as (Hreq & _ & front & p & res & Ht & _ & _).
  exists (length t1). split.
  { rewrite Ht, length_app. cbn. lia. }
  assert (Hshape : requests t1 =
            map (fun k => (listing_url username, mkParams (Z.of_nat k) 100 "updated" "desc"))
                (seq 1 (length t1))).
  { rewrite Hreq, <- seq_shift, map_map. apply map_ext. intros k.
    unfold listing_params. do 2 f_equal. lia. }
  destruct r1 as [e | repos]; injection E as <- <- <-.
  - exact Hshape.
  - rewrite requests_app. cbn [requests]. rewrite app_nil_r. exact Hshape.
Qed.

(** X17.  When [get_user_repositories] returns, it returns one repository for
    every object of every page it received, in the order received, each with
    the seven fields of its object; the last page it asked for was empty and
    every page before brought at least one object; and its log has one line,
    the number of repositories found. *)
Theorem listing_returns_every_object (fuel : nat) (username : option string) (w : W)
    (repos : list Repository) w' t :
  get_user_repositories fuel username w = Some (inr repos, w', t) ->
  Forall2 describes (listed t) repos /\
  logged t = [fmt ["Found "; str_of_int (Z.of_nat (length repos)); " repositories"]] /\
  exists front p,
    t = front ++ [GetList (listing_url username) p (inr []);
                  Info (fmt ["Found "; str_of_int (Z.of_nat (length repos));
                             " repositories"])] /\
    Forall full_page front.
Proof.
  unfold get_user_repositories. intros E.
  destruct (pages_loop fuel (listing_url username) 1 [] w) as [[[r1 w1] t1] |] eqn:Hloop;
    [| discriminate].
  destruct r1 as [e | out]; [discriminate |]. injection E as <- <- <-.
  destruct (pages_loop_run _ _ _ _ _ _ _ _ Hloop)
    as (_ & Hlog & front & p & res & Ht & Hfront & Hres & rs & Hout & Hrs).
  cbn [app] in Hout. subst out res.
  split.
  { rewrite listed_app. cbn [listed]. rewrite app_nil_r. exact Hrs. }
  split.
  { rewrite logged_app, Hlog. reflexivity. }
  exists front, p. split; [| exact Hfront].
  rewrite Ht, <- app_assoc. reflexivity.
Qed.

(** X18.  [get_user_repositories] gives all or nothing.  When it raises, what
    it had collected is lost and its log is empty; the exception is the one
    the last request raised, or the [KeyError] for one of the seven keys, that
    an object of the last page does not have. *)
Theorem listing_raises_as_a_whole (fuel : nat) (username : option string) (w : W)
    (e : exn) w' t :
  get_user_repositories fuel username w = Some (inl e, w', t) ->
  logged t = [] /\
  exists front p res,
    t = front ++ [GetList (listing_url username) p res] /\
    Forall full_page front /\
    match res with
    | inl e' => e' = e
    | inr data =>
        exists d key,
          In d data /\ complete d = false /\ e = KeyError key /\
          In key ["name"; "full_name"; "clone_url"; "default_branch"; "private";
                  "size"; "updated_at"]
    end.
Proof.
  unfold get_user_repositories. intros E.
  destruct (pages_loop fuel (listing_url username) 1 [] w) as [[[r1 w1] t1] |] eqn:Hloop;
    [| discriminate].
  destruct r1 as [e1 | out]; [| discriminate]. injection E as <- <- <-.
  destruct (pages_loop_run _ _ _ _ _ _ _ _ Hloop)
    as (_ & Hlog & front & p & res & Ht & Hfront & Hres).
  split; [exact Hlog |].
  exists front, p, res. split; [exact Ht |]. split; [exact Hfront |].
  destruct res as [e' | data]; [exact Hres |].
  destruct Hres as (d & Hin & Hd).
  destruct (make_repository_error _ _ Hd) as (key & He & Hkey).
  exists d, key. split; [exact Hin |]. split; [| split; assumption].
  unfold complete. rewrite Hd. reflexivity.
Qed.

Lemma pages_loop_ends (n : nat) (url : string) (pg : Z) (repos : list Repository) (w : W) :
  (forall p w0, snd (session_get_list url p w0) = w0) ->
  fst (session_get_list url (listing_params (pg + Z.of_nat n)) w) = inr [] ->
  exists out, pages_loop (S n) url pg repos w = Some out.
Proof.
  intros Hsame. revert pg repos.
  induction n as [| n IH]; intros pg repos Hempty.
  - rewrite Z.add_0_r in Hempty. cbn [pages_loop]. cbv zeta.
    destruct (session_get_list url (listing_params pg) w) as [[e | data] w1].
    + eexists; reflexivity.
    + cbn [fst] in Hempty. injection Hempty as ->. eexists; reflexivity.
  - remember (S n) as m eqn:Hm. cbn [pages_loop]. cbv zeta. subst m.
    pose proof (Hsame (listing_params pg) w) as Hw.
    destruct (session_get_list url (listing_params pg) w) as [[e | [| d ds]] w1];
      try (eexists; reflexivity).
    cbn [snd] in Hw. subst w1.
    destruct (append_all (d :: ds) repos) as [e | repos']; [eexists; reflexivity |].
    destruct (IH (pg + 1) repos') as [[[r2 w2] t2] Hnext].
    { replace (pg + 1 + Z.of_nat n) with (pg + Z.of_nat (S n)) by lia. exact Hempty. }
    rewrite Hnext. eexists; reflexivity.
Qed.

(** X19.  The listing ends at an empty page.  Over a directory the requests
    do not change, if the page [n+1] of the listing is empty,
    [get_user_repositories] returns or raises within [n+1] requests, and more
    turns do not change what it gives. *)
Theorem listing_ends_at_an_empty_page (n : nat) (username : option string) (w : W) :
  (forall p w0, snd (session_get_list (listing_url username) p w0) = w0) ->
  fst (session_get_list (listing_url username) (listing_params (Z.of_nat (S n))) w)
    = inr [] ->
  exists r w' t,
    (length (requests t) <= S n)%nat /\
    forall fuel, (S n <= fuel)%nat ->
      get_user_repositories fuel username w = Some (r, w', t).
Proof.
  intros Hsame Hempty.
  destruct (pages_loop_ends n (listing_url username) 1 [] w Hsame) as [[[r1 w1] t1] Hloop].
  { replace (1 + Z.of_nat n) with (Z.of_nat (S n)) by lia. exact Hempty. }
  assert (Hlen : (length (requests t1) <= S n)%nat).
  { clear Hempty. revert Hloop. generalize 1 at 1. generalize (@nil Repository).
    generalize (S n). clear n. intros n. revert w r1 w1 t1.
    induction n as [| n IH]; intros w r1 w1 t1 repos pg E; [discriminate |].
    cbn [pages_loop] in E. cbv zeta in E.
    destruct (session_get_list (listing_url username) (listing_params pg) w)
      as [[e | [| d ds]] w2].
    - injection E as <- <- <-. cbn. lia.
    - injection E as <- <- <-. cbn. lia.
    - destruct (append_all (d :: ds) repos) as [e | repos'].
      + injection E as <- <- <-. cbn. lia.
      + destruct (pages_loop n (listing_url username) (pg + 1) repos' w2)
          as [[[r2 w3] t2] |] eqn:Hnext; [| discriminate].
        injection E as <- <- <-. cbn [requests length].
        specialize (IH _ _ _ _ _ _ Hnext). lia. }
  destruct r1 as [e | repos].
  - exists (inl e), w1, t1. split; [exact Hlen |].
    intros fuel Hfuel. unfold get_user_repositories.
    rewrite (pages_loop_more_fuel _ _ _ _ _ _ Hloop fuel Hfuel). reflexivity.
  - eexists (inr repos), w1, _. split.
    2:{ intros fuel Hfuel. unfold get_user_repositories.
        rewrite (pages_loop_more_fuel _ _ _ _ _ _ Hloop fuel Hfuel). reflexivity. }
    rewrite requests_app. cbn [requests]. rewrite app_nil_r. exact Hlen.
Qed.

(** X20.  Nothing but an empty page or an exception ends the listing: there
    is no cap on the pages.  Over a directory that answers every page with
    at least one object, all objects having the seven keys,
    [get_user_repositories] does not return, however many turns it is
    given. *)
Theorem listing_has_no_page_cap (username : option string) (w : W) :
  (forall p w0, exists d ds w1,
      session_get_list (listing_url username) p w0 = (inr (d :: ds), w1) /\
      forallb complete (d :: ds) = true) ->
  forall fuel, get_user_repositories fuel username w = None.
Proof.
  intros Hfull fuel. unfold get_user_repositories.
  assert (Hloop : forall pg repos w0,
             pages_loop fuel (listing_url username) pg repos w0 = None).
  { induction fuel as [| fuel IH]; intros pg repos w0; [reflexivity |].
    cbn [pages_loop]. cbv zeta.
    destruct (Hfull (listing_params pg) w0) as (d & ds & w1 & -> & Hall).
    destruct (append_all_complete (d :: ds) repos Hall) as [repos' ->].
    rewrite IH. reflexivity. }
  rewrite Hloop. reflexivity.
Qed.

End Paging.

(** ** The construction of the manager and the exit status of the commands *)

Lemma rstrip_ends (c : ascii) (s : string) : ends_with c (rstrip c s) = false.
Proof.
  induction s as [| a rest IH]; cbn [rstrip]; [reflexivity |].
  destruct (rstrip c rest) as [| b kept] eqn:E.
  - destruct (Ascii.eqb a c) eqn:Hac; cbn [ends_with]; [reflexivity | exact Hac].
  - cbn [ends_with] in *. exact IH.
Qed.

Lemma rstrip_removed (c : ascii) (s : string) :
  exists k, s = String.append (rstrip c s) (times (String c EmptyString) k).
Proof.
  induction s as [| a rest IH]; cbn [rstrip].
  - exists 0%nat. reflexivity.
  - destruct IH as [k IH].
    destruct (rstrip c rest) as [| b kept] eqn:E.
    + cbn [String.append] in IH.
      destruct (Ascii.eqb a c) eqn:Hac.
      * apply Ascii.eqb_eq in Hac. subst a. exists (S k). cbn. rewrite <- IH. reflexivity.
      * exists k. cbn. rewrite <- IH. reflexivity.
    + exists k. cbn [String.append] in *. rewrite <- IH. reflexivity.
Qed.

Lemma lines_of_app (which : stream) (a b : list (stream * string)) :
  lines_of which (a ++ b) = lines_of which a ++ lines_of which b.
Proof. unfold lines_of. rewrite filter_app, map_app. reflexivity. Qed.

Lemma lines_of_err_echo (lines : list string) : lines_of Err (echo lines) = [].
Proof. induction lines as [| l lines IH]; [reflexivity | exact IH]. Qed.

Lemma failures_positive {A} (f : A -> bool) (l : list A) :
  (0 <? Z.of_nat (length (filter (fun x => negb (f x)) l))) = negb (forallb f l).
Proof.
  induction l as [| x l IH]; [reflexivity |].
  cbn [filter forallb]. destruct (f x); cbn [negb andb length]; [exact IH |].
  apply Z.ltb_lt. lia.
Qed.

Section CommandsMore.
Context {W : Type} `{Collaborators W} `{Process W}.

Lemma full_run_failed_count {L} (folder : string) (username : option string)
    (exclude_repos : option (list string)) (include_private : bool) (s : St W L) :
  exists res,
    result_of (backup_all_repositories folder username exclude_repos include_private) s
      = inr res /\
    Full.failed_backups res =
      Z.of_nat (length (filter (fun d => negb (bd_success d)) (Full.backup_details res))).
Proof.
  pose proof (backup_all_repositories_run folder username exclude_repos
                include_private s) as Hrun.
  cbv zeta in Hrun.
  destruct (fst (gh_get_user_repositories username (world s))) as [e | repos].
  - destruct Hrun as [Hr _]. eexists. split; [exact Hr | reflexivity].
  - destruct Hrun as (res & t & Hr & _ & _ & _ & _ & _ & Hfail & _).
    exists res. split; [exact Hr | exact Hfail].
Qed.

Lemma not_found_step (folder : string) (username : option string) (repo_name : string)
    (s : St W Targeted.results) :
  let m := backup_requested folder username repo_name in
  result_of m s = inr tt /\
  Targeted.not_found_repos (locals s) <= Targeted.not_found_repos (locals (state_after m s)).
Proof.
  cbv zeta.
  destruct (backup_requested_run folder username repo_name s) as [Hres Hcase].
  split; [exact Hres |]. cbv zeta in Hcase.
  assert (Hresolved : forall first : event,
    (exists (b : bool) (d : BackupDetail) (t : list event),
        locals (state_after (backup_requested folder username repo_name) s) =
          (if b then Targeted.incr_successful else Targeted.incr_failed)
            (Targeted.append_detail d (locals s)) /\
        bd_success d = b /\
        events_of (backup_requested folder username repo_name) s = first :: t /\
        existsb listing_call t = false /\
        (forall r, first = EListRepos None (inr r) -> bd_repo_name d = repo_name) /\
        (forall r, first = EGetRepo (match truthy username with Some o => o | None => "" end)
                                    repo_name (inr r) -> bd_repo_name d = name r)) ->
    Targeted.not_found_repos (locals s)
    <= Targeted.not_found_repos
         (locals (state_after (backup_requested folder username repo_name) s))).
  { intros first (b & d & t & Hl & _). rewrite Hl. destruct b; cbn; lia. }
  destruct (truthy username) as [owner |].
  - destruct (fst (gh_get_repository owner repo_name (world s))) as [e | repo].
    + destruct Hcase as [[ts Hl] _]. rewrite Hl. cbn. lia.
    + exact (Hresolved _ Hcase).
  - destruct (fst (gh_get_user_repositories None (world s))) as [e | all_repos].
    + destruct Hcase as [[ts Hl] _]. rewrite Hl. cbn. lia.
    + destruct (find _ all_repos).
      * exact (Hresolved _ Hcase).
      * destruct Hcase as [Hl _]. rewrite Hl. cbn. lia.
Qed.

Lemma not_found_never_decreases (folder : string) (username : option string)
    (repo_names : list string) (s : St W Targeted.results) :
  Targeted.not_found_repos (locals s)
  <= Targeted.not_found_repos
       (locals (state_after (for_each repo_names (backup_requested folder username)) s)).
Proof.
  revert s. induction repo_names as [| repo_name rest IH]; intros s.
  - cbn. lia.
  - cbn [for_each]. unfold bind, state_after.
    destruct (not_found_step folder username repo_name s) as [Hr Hle].
    unfold result_of, state_after in Hr, Hle.
    destruct (backup_requested folder username repo_name s) as [[r1 s1] t1].
    cbn [fst snd] in *. subst r1.
    specialize (IH s1). unfold state_after in IH.
    destruct (for_each rest _ s1) as [[r2 s2] t2]. cbn [fst snd] in *. lia.
Qed.

Lemma targeted_run_counts {L} (folder : string) (repo_names : list string)
    (username : option string) (s : St W L) :
  exists res,
    result_of (backup_specific_repositories folder repo_names username) s = inr res /\
    0 <= Targeted.failed_backups res /\
    0 <= Targeted.not_found_repos res /\
    Targeted.successful_backups res + Targeted.failed_backups res
      + Targeted.not_found_repos res = Z.of_nat (length repo_names).
Proof.
  destruct (targeted_run_unfolds folder repo_names username s) as [Hr _]. cbv zeta in Hr.
  pose proof (not_found_never_decreases folder username repo_names
                (mkSt (world s) (Targeted.initial repo_names))) as Hnf0.
  destruct (targeted_loop_run folder username repo_names
              (mkSt (world s) (Targeted.initial repo_names)))
    as (ds & _ & _ & _ & Hsucc & Hfail & Hnf & _).
  cbn [locals Targeted.initial Targeted.successful_backups Targeted.failed_backups
       Targeted.not_found_repos] in Hsucc, Hfail, Hnf, Hnf0.
  eexists. split; [exact Hr |].
  pose proof (filter_split_length bd_success ds) as Hsplit.
  lia.
Qed.


(** X22.  The exit status of [backup_all] tells whether a backup failed, and
    nothing else.  Once the manager is constructed, and where the results
    file can be written, the command ends with status 0 when every outcome
    of the run has [success = True] and with status 1 otherwise; it writes
    nothing to the standard error, and the manager runs in the folder given,
    its trailing slashes removed. *)
Theorem backup_all_exit_status (github_token dropbox_token : option string)
    (backup_folder : string) (username : option string) (exclude : list string)
    (include_private : bool) (output : option string) (w w1 : W) (folder : string)
    (t0 : list event) :
  BackupManager_init github_token dropbox_token backup_folder w = (inr folder, w1, t0) ->
  (forall path res w0, exists w3, json_dump_full path res w0 = (inr tt, w3)) ->
  let f := backup_all github_token dropbox_token backup_folder username exclude
             include_private output w in
  let run := backup_all_repositories (rstrip "/" backup_folder) username (Some exclude)
               include_private in
  exists res,
    result_of run (mkSt w1 tt) = inr res /\
    exit_status f = (if forallb bd_success (Full.backup_details res) then 0 else 1) /\
    lines_of Err (echoed f) = [] /\
    calls f = t0 ++ events_of run (mkSt w1 tt).
Proof.
  intros Hinit Hdump. cbv zeta.
  assert (Hfolder : folder = rstrip "/" backup_folder).
  { unfold BackupManager_init in Hinit.
    destruct (GitHubClient.init _ _); [discriminate |].
    destruct (DropboxClient_init dropbox_token w) as [[[e | tok] w'] t']; [discriminate |].
    injection Hinit as <- _ _. reflexivity. }
  subst folder.
  unfold backup_all. rewrite Hinit.
  destruct (full_run_failed_count (L := unit) (rstrip "/" backup_folder) username
              (Some exclude) include_private (mkSt w1 tt)) as (res & Hres & Hfail).
  unfold result_of, events_of in *.
  destruct (backup_all_repositories (rstrip "/" backup_folder) username (Some exclude)
              include_private (mkSt w1 tt)) as [[r s2] t1].
  cbn [fst snd] in *. subst r.
  exists res. split; [reflexivity |].
  assert (Hpos : (0 <? Full.failed_backups res)
                 = negb (forallb bd_success (Full.backup_details res))).
  { rewrite Hfail. apply failures_positive. }
  cbv zeta.
  destruct (truthy output) as [path |];
    [destruct (Hdump path res (world s2)) as [w3 ->] |];
    cbn [exit_status echoed calls]; rewrite Hpos;
    (split; [destruct (forallb bd_success (Full.backup_details res)); reflexivity |]);
    (split; [| reflexivity]);
    rewrite !lines_of_app, !lines_of_err_echo;
    destruct exclude; destruct (negb _); rewrite ?lines_of_err_echo; reflexivity.
Qed.

(** X23.  A listing that fails does not make [backup_all] fail.  When the
    manager is constructed, the listing of the repositories raises and no
    results file is asked for, the command ends with status 0 and nothing on
    the standard error: it reports four counters of 0, and the exception
    shows only in the log. *)
Theorem failed_listing_exits_zero (github_token dropbox_token : option string)
    (backup_folder : string) (username : option string) (exclude : list string)
    (include_private : bool) (output : option string) (w w1 : W) (folder : string)
    (t0 : list event) (e : exn) :
  BackupManager_init github_token dropbox_token backup_folder w = (inr folder, w1, t0) ->
  fst (gh_get_user_repositories username w1) = inl e ->
  truthy output = None ->
  let f := backup_all github_token dropbox_token backup_folder username exclude
             include_private output w in
  exit_status f = 0 /\
  lines_of Err (echoed f) = [] /\
  (exists front,
     echoed f = front ++ echo ["Total repositories: 0"; "Successful backups: 0";
                               "Failed backups: 0"; "Skipped repositories: 0"]) /\
  calls f = t0 ++ [EListRepos username (inl e);
                   ELog ERROR (fmt ["Error during backup process: "; str e])].
Proof.
  intros Hinit Hlisting Houtput. cbv zeta.
  unfold backup_all. rewrite Hinit, Houtput.
  pose proof (backup_all_repositories_run (L := unit) folder username (Some exclude)
                include_private (mkSt w1 tt)) as Hrun.
  cbv zeta in Hrun. cbn [world] in Hrun. rewrite Hlisting in Hrun.
  destruct Hrun as [Hres Hev]. unfold result_of, events_of in Hres, Hev.
  destruct (backup_all_repositories folder username (Some exclude) include_private
              (mkSt w1 tt)) as [[r s2] t1].
  cbn [fst snd] in Hres, Hev. subst r t1.
  cbn [Full.set_error Full.initial Full.failed_backups Full.total_repos
       Full.successful_backups Full.skipped_repos Full.backup_details Z.ltb Z.compare
       exit_status echoed calls].
  split; [reflexivity |].
  split.
  { rewrite !lines_of_app, !lines_of_err_echo.
    destruct exclude; rewrite ?lines_of_err_echo; reflexivity. }
  split; [| reflexivity].
  rewrite !app_nil_r.
  match goal with
  | |- exists front, ?a ++ echo (?x :: ?y :: ?z :: _) = _ => exists (a ++ echo [x; y; z])
  end.
  rewrite <- !app_assoc. reflexivity.
Qed.

(** X24.  The exit status of [backup_repos] tells whether every requested
    name was backed up.  Once the manager is constructed, and where the
    results file can be written, the command ends with status 0 exactly when
    [successful_backups] is the number of names requested, and with status 1
    otherwise. *)
Theorem backup_repos_exit_status (repositories : list string)
    (github_token dropbox_token : option string) (backup_folder : string)
    (username : option string) (output : option string) (w w1 : W) (folder : string)
    (t0 : list event) :
  BackupManager_init github_token dropbox_token backup_folder w = (inr folder, w1, t0) ->
  (forall path res w0, exists w3, json_dump_targeted path res w0 = (inr tt, w3)) ->
  let f := backup_repos repositories github_token dropbox_token backup_folder username
             output w in
  exists res,
    result_of (backup_specific_repositories folder repositories username) (mkSt w1 tt)
      = inr res /\
    exit_status f =
      (if Targeted.successful_backups res =? Z.of_nat (length repositories)
       then 0 else 1) /\
    lines_of Err (echoed f) = [].
Proof.
  intros Hinit Hdump. cbv zeta.
  unfold backup_repos. rewrite Hinit.
  destruct (targeted_run_counts (L := unit) folder repositories username (mkSt w1 tt))
    as (res & Hres & Hfail & Hnf & Hsum).
  unfold result_of in *.
  destruct (backup_specific_repositories folder repositories username (mkSt w1 tt))
    as [[r s2] t1].
  cbn [fst snd] in *. subst r.
  exists res. split; [reflexivity |].
  assert (Hstatus : (if (0 <? Targeted.failed_backups res)
                         || (0 <? Targeted.not_found_repos res) then 1 else 0)
                    = (if Targeted.successful_backups res =? Z.of_nat (length repositories)
                       then 0 else 1)).
  { destruct (Z.eqb_spec (Targeted.successful_backups res) (Z.of_nat (length repositories)))
      as [Heq | Hne].
    - assert (Targeted.failed_backups res = 0) as -> by lia.
      assert (Targeted.not_found_repos res = 0) as -> by lia. reflexivity.
    - destruct (Z.ltb_spec 0 (Targeted.failed_backups res)); [reflexivity |].
      destruct (Z.ltb_spec 0 (Targeted.not_found_repos res)); [reflexivity | lia]. }
  cbv zeta.
  destruct (truthy output) as [path |];
    [destruct (Hdump path res (world s2)) as [w3 ->] |];
    cbn [exit_status echoed calls]; rewrite Hstatus;
    (split; [reflexivity |]);
    rewrite !lines_of_app, !lines_of_err_echo;
    destruct (0 <? Targeted.failed_backups res); rewrite ?lines_of_err_echo; reflexivity.
Qed.

(** X25.  The manager never works in a folder whose name ends with a slash.
    Whatever folder it is constructed with, [self.backup_folder] does not end
    with [/], and the folder given is [self.backup_folder] followed by
    slashes only; so the folder [/] becomes the empty string. *)
Theorem manager_folder_has_no_trailing_slash (github_token dropbox_token : option string)
    (backup_folder : string) (w w1 : W) (folder : string) (t0 : list event) :
  BackupManager_init github_token dropbox_token backup_folder w = (inr folder, w1, t0) ->
  ends_with "/" folder = false /\
  exists k, backup_folder = String.append folder (times "/" k).
Proof.
  intros Hinit. unfold BackupManager_init in Hinit.
  destruct (GitHubClient.init _ _); [discriminate |].
  destruct (DropboxClient_init dropbox_token w) as [[[e | tok] w'] t']; [discriminate |].
  injection Hinit as <- _ _.
  split; [apply rstrip_ends | apply rstrip_removed].
Qed.

End CommandsMore.

(** ** The further properties on concrete runs *)

(** X2 on a 2 KiB archive. *)
Lemma small_file_is_one_upload_call_witness :
  exists res,
    filter sdk_call (events_of (upload_file "/tmp/a.zip" "/Projects/a/a.zip" true)
                               (Scenario.start Scenario.fine))
    = [EFilesUpload "/Projects/a/a.zip" WriteMode_overwrite res].
Proof.
  destruct (@small_file_is_one_upload_call Scenario.world Scenario.collaborators unit
              "/tmp/a.zip" "/Projects/a/a.zip" true (Scenario.start Scenario.fine) 2048
              eq_refl ltac:(lia)) as [res [Hcalls _]].
  exists res. exact Hcalls.
Defined.

(** X3 in a world where the file is not there. *)
Lemma unreadable_file_sends_nothing_witness :
  result_of (upload_file "/tmp/a.zip" "/Projects/a/a.zip" true) Outage.start = inr false.
Proof.
  apply (proj1 (@unreadable_file_sends_nothing unit Outage.collaborators unit
                  "/tmp/a.zip" "/Projects/a/a.zip" true Outage.start Outage.missing eq_refl)).
Defined.

(** X4 on a file of 10 MiB and 1 byte: three chunks. *)
Lemma large_upload_chunks_cover_the_file_witness :
  exists stop,
    chunks_end 0 (session_chunks
                    (events_of (_upload_large_file "/Projects/a/a.zip" (10 * 1024 * 1024 + 1) true)
                               (Scenario.start Scenario.fine))) = Some stop /\
    0 <= stop <= 10 * 1024 * 1024 + 1.
Proof.
  destruct (@large_upload_chunks_cover_the_file Scenario.world Scenario.collaborators unit
              "/Projects/a/a.zip" (10 * 1024 * 1024 + 1) true (Scenario.start Scenario.fine)
              ltac:(lia)) as (stop & Hend & Hstop & _).
  exists stop. split; assumption.
Defined.

(** X5 on a file of 1 MiB. *)
Lemma one_chunk_file_is_never_committed_witness :
  filter commit_call
    (events_of (_upload_large_file "/Projects/a/a.zip" (1024 * 1024) true)
               (Scenario.start Scenario.fine)) = [].
Proof.
  destruct (@one_chunk_file_is_never_committed Scenario.world Scenario.collaborators unit
              "/Projects/a/a.zip" (1024 * 1024) true (Scenario.start Scenario.fine)
              ltac:(unfold CHUNK_SIZE; lia)) as (res & _ & Hnone & _).
  exact Hnone.
Defined.

(** X6 on an archive of 160 MiB and 5 bytes. *)
Lemma big_file_goes_through_a_session_witness :
  let w := Scenario.with_zip_size (160 * 1024 * 1024 + 5) Scenario.fine in
  existsb (fun e => match e with EFilesUpload _ _ _ => true | _ => false end)
          (events_of (upload_file "/tmp/a.zip" "/Projects/a/a.zip" true) (Scenario.start w))
  = false.
Proof.
  cbv zeta.
  apply (proj1 (@big_file_goes_through_a_session Scenario.world Scenario.collaborators unit
                  "/tmp/a.zip" "/Projects/a/a.zip" true
                  (Scenario.start (Scenario.with_zip_size (160 * 1024 * 1024 + 5) Scenario.fine))
                  (160 * 1024 * 1024 + 5) eq_refl ltac:(lia))).
Defined.


(** X12 on two names asked of one account. *)
Lemma targeted_run_looks_each_name_up_witness :
  lookups (events_of (backup_specific_repositories "/Projects" ["b"; "zzz"] (Some "octocat"))
                     (Scenario.start Scenario.fine))
  = [("octocat", "b"); ("octocat", "zzz")].
Proof.
  apply (proj1 (@targeted_run_looks_each_name_up Scenario.world Scenario.collaborators
                  "/Projects" unit ["b"; "zzz"] (Some "octocat") "octocat"
                  (Scenario.start Scenario.fine) eq_refl)).
Defined.

(** X13 on a name the account does not have. *)
Lemma resolution_error_is_recorded_witness :
  let s := mkSt Scenario.fine (Targeted.initial ["zzz"]) in
  Targeted.failed_backups
    (locals (state_after (backup_requested "/Projects" (Some "octocat") "zzz") s)) = 1.
Proof.
  cbv zeta.
  apply (proj1 (proj2 (@resolution_error_is_recorded Scenario.world Scenario.collaborators
                         "/Projects" (Some "octocat") "zzz" Scenario.not_found
                         (mkSt Scenario.fine (Targeted.initial ["zzz"])) eq_refl))).
Defined.

(** X14 on the tree of the scenario. *)
Lemma archive_members_are_distinct_witness :
  exists members,
    archive_entries ["/tmp/tmpk3v9"; "a"] Scenario.tree = inr members /\
    NoDup (map fst members).
Proof.
  apply archive_members_are_distinct.
  unfold Scenario.tree.
  repeat first
    [ apply wf_file | apply wf_other | apply wf_dir | apply Forall_nil | apply Forall_cons
    | apply NoDup_nil
    | apply NoDup_cons; [cbn [map fst In]; intuition discriminate |] ].
Defined.

(** X15 on a clone that left nothing behind. *)
Lemma archive_of_no_files_is_empty_witness :
  archive_entries ["/tmp/tmpq1"; "a"] Other = inr [].
Proof.
  apply archive_of_no_files_is_empty. right. intros entries. discriminate.
Defined.

(** X16 on a listing of two pages. *)
Lemma listing_asks_page_after_page_witness :
  exists r w' t n,
    GitHubClient.get_user_repositories 5 (Some "octocat") GitHubClient.Served.two_pages
      = Some (r, w', t) /\
    (1 <= n)%nat /\
    GitHubClient.requests t =
      map (fun k => ("https://api.github.com/users/octocat/repos",
                     GitHubClient.mkParams (Z.of_nat k) 100 "updated" "desc"))
          (seq 1 n).
Proof.
  assert (E : exists r w' t,
             GitHubClient.get_user_repositories 5 (Some "octocat")
               GitHubClient.Served.two_pages = Some (r, w', t))
    by (do 3 eexists; vm_compute; reflexivity).
  destruct E as (r & w' & t & E).
  destruct (@listing_asks_page_after_page GitHubClient.Served.world
              GitHubClient.Served.session 5 (Some "octocat")
              GitHubClient.Served.two_pages r w' t E) as (n & Hn & Hreq).
  exists r, w', t, n. split; [exact E |]. split; [exact Hn | exact Hreq].
Defined.

(** X17 on the same listing. *)
Lemma listing_returns_every_object_witness :
  exists w' t,
    GitHubClient.get_user_repositories 5 None GitHubClient.Served.two_pages
      = Some (inr [Scenario.repo_a; Scenario.repo_b], w', t) /\
    GitHubClient.logged t = ["Found 2 repositories"].
Proof.
  assert (E : exists w' t,
             GitHubClient.get_user_repositories 5 None GitHubClient.Served.two_pages
             = Some (inr [Scenario.repo_a; Scenario.repo_b], w', t))
    by (do 2 eexists; vm_compute; reflexivity).
  destruct E as (w' & t & E).
  destruct (@listing_returns_every_object GitHubClient.Served.world
              GitHubClient.Served.session 5 None GitHubClient.Served.two_pages
              [Scenario.repo_a; Scenario.repo_b] w' t E) as (_ & Hlog & _).
  exists w', t. split; [exact E | exact Hlog].
Defined.

(** X18 on a listing whose second page has an object without [size]. *)
Lemma listing_raises_as_a_whole_witness :
  let pages := [[GitHubClient.Served.data_of Scenario.repo_a];
                [GitHubClient.Served.without_size
                   (GitHubClient.Served.data_of Scenario.repo_b)]] in
  exists w' t,
    GitHubClient.get_user_repositories 5 None pages
      = Some (inl (GitHubClient.KeyError "size"), w', t) /\
    GitHubClient.logged t = [].
Proof.
  cbv zeta.
  assert (E : exists w' t,
             GitHubClient.get_user_repositories 5 None
               [[GitHubClient.Served.data_of Scenario.repo_a];
                [GitHubClient.Served.without_size
                   (GitHubClient.Served.data_of Scenario.repo_b)]]
             = Some (inl (GitHubClient.KeyError "size"), w', t))
    by (do 2 eexists; vm_compute; reflexivity).
  destruct E as (w' & t & E).
  destruct (@listing_raises_as_a_whole GitHubClient.Served.world
              GitHubClient.Served.session 5 None _ _ w' t E) as (Hlog & _).
  exists w', t. split; [exact E | exact Hlog].
Defined.

(** X19 on the listing of two pages: the third page is empty. *)
Lemma listing_ends_at_an_empty_page_witness :
  exists out,
    GitHubClient.get_user_repositories 3 None GitHubClient.Served.two_pages = Some out /\
    GitHubClient.get_user_repositories 10 None GitHubClient.Served.two_pages = Some out.
Proof.
  destruct (@listing_ends_at_an_empty_page GitHubClient.Served.world
              GitHubClient.Served.session 2 None GitHubClient.Served.two_pages
              (fun _ _ => eq_refl) eq_refl) as (r & w' & t & _ & Hrun).
  exists (r, w', t). split; apply Hrun; lia.
Defined.

(** X20 on a directory that answers every page with one object. *)
Lemma listing_has_no_page_cap_witness :
  GitHubClient.get_user_repositories 1000 None tt = None.
Proof.
  apply (@listing_has_no_page_cap unit GitHubClient.Endless.session None tt).
  intros p w0. exists (GitHubClient.Served.data_of Scenario.repo_a), [], w0.
  split; reflexivity.
Defined.


(** X22 on the two repositories, the folder given with a trailing slash. *)
Lemma backup_all_exit_status_witness :
  exists res,
    result_of (backup_all_repositories "/Projects" None (Some []) true)
              (Scenario.start Scenario.fine) = inr res /\
    exit_status (backup_all None None "/Projects/" None [] true None Scenario.fine)
    = (if forallb bd_success (Full.backup_details res) then 0 else 1).
Proof.
  destruct (@backup_all_exit_status Scenario.world Scenario.collaborators Desk.process
              None None "/Projects/" None [] true None Scenario.fine Scenario.fine
              "/Projects" [ELog INFO "Successfully connected to Dropbox"] eq_refl
              (fun _ _ w0 => ex_intro _ w0 eq_refl)) as (res & Hres & Hstatus & _).
  exists res. split; [exact Hres | exact Hstatus].
Defined.

(** X23 on a directory that answers 503. *)
Lemma failed_listing_exits_zero_witness :
  let w := Scenario.with_listing_error
             (mkExn (HTTPError 503) "503 Server Error: Service Unavailable")
             Scenario.fine in
  exit_status (backup_all None None "/Projects" None [] true None w) = 0.
Proof.
  cbv zeta.
  apply (proj1 (@failed_listing_exits_zero Scenario.world Scenario.collaborators
                  Desk.process None None "/Projects" None [] true None
                  (Scenario.with_listing_error
                     (mkExn (HTTPError 503) "503 Server Error: Service Unavailable")
                     Scenario.fine) _ "/Projects"
                  [ELog INFO "Successfully connected to Dropbox"]
                  (mkExn (HTTPError 503) "503 Server Error: Service Unavailable")
                  eq_refl eq_refl eq_refl)).
Defined.

(** X24 on one name the account has and one it does not have. *)
Lemma backup_repos_exit_status_witness :
  exists res,
    result_of (backup_specific_repositories "/Projects" ["a"; "zzz"] None)
              (Scenario.start Scenario.fine) = inr res /\
    exit_status (backup_repos ["a"; "zzz"] None None "/Projects" None None Scenario.fine)
    = (if Targeted.successful_backups res =? 2 then 0 else 1).
Proof.
  destruct (@backup_repos_exit_status Scenario.world Scenario.collaborators Desk.process
              ["a"; "zzz"] None None "/Projects" None None Scenario.fine Scenario.fine
              "/Projects" [ELog INFO "Successfully connected to Dropbox"] eq_refl
              (fun _ _ w0 => ex_intro _ w0 eq_refl)) as (res & Hres & Hstatus & _).
  exists res. split; [exact Hres | exact Hstatus].
Defined.

(** X25 on the folder [/Projects//]. *)
Lemma manager_folder_has_no_trailing_slash_witness :
  ends_with "/" "/Projects" = false /\
  exists k, "/Projects//" = String.append "/Projects" (times "/" k).
Proof.
  apply (@manager_folder_has_no_trailing_slash Scenario.world Desk.process
           None None "/Projects//" Scenario.fine Scenario.fine "/Projects"
           [ELog INFO "Successfully connected to Dropbox"] eq_refl).
Defined.
